(** * Pest-risk prediction service: a shallow embedding of [app.py]

    The development follows the Python module top to bottom: utility
    functions ([dew_point], [get_latest_solar], [summarize]), the
    soil-moisture helpers ([soil_category], [grid_risk]), the field
    evaluator ([process_field]) and the scheduler ([prediction_loop]).

    Numbers.  A Python float is represented by the rational it denotes
    ([Q]); infinities and NaN are outside the model.  Comparisons are
    exact, as they are on floats.  The product of line 242 and the
    quotient and rounding of line 260, whose last bit decides a class
    or a stored value, are rounded to binary64 ([round64]).  The
    arithmetic of the feature vector (dew points, sums, means, the
    reconstruction error) is carried out exactly: what is proved about
    it is about the formulas computed, not about their last bit.
    Equality of computed numbers is stated with [==] where a quotient
    is involved.

    Effects.  The realtime database, standard output, the clock and the
    HTTP client are threaded explicitly as a [world]; a Python exception
    is a [Raise] outcome that keeps the effects performed before it. *)

From Stdlib Require Import QArith Qminmax Qround Qpower Lqa ZArith Lia.
From stdpp Require Import gmap strings list fin_maps.

Local Open Scope Q_scope.

(** ** Python comparisons on numbers *)

Definition py_le (x y : Q) : bool := Qle_bool x y.
Definition py_lt (x y : Q) : bool := negb (Qle_bool y x).
Definition py_gt (x y : Q) : bool := py_lt y x.
Definition py_ne (x y : Q) : bool := negb (Qeq_bool x y).

(** ** Exceptions and outcomes *)

Inductive exn : Type :=
| ValueError
| ZeroDivisionError
| ExternalError (msg : string).

Inductive result (A : Type) : Type :=
| Ok (a : A)
| Raise (e : exn).
Arguments Ok {A} a.
Arguments Raise {A} e.

Definition rbind {A B} (r : result A) (k : A → result B) : result B :=
  match r with
  | Ok a => k a
  | Raise e => Raise e
  end.

Fixpoint rmap_list {A B} (f : A → result B) (l : list A) : result (list B) :=
  match l with
  | [] => Ok []
  | x :: xs => rbind (f x) (λ y, rbind (rmap_list f xs) (λ ys, Ok (y :: ys)))
  end.

(** Division of two Python floats: a zero divisor raises. *)
Definition py_div (x y : Q) : result Q :=
  if Qeq_bool y 0 then Raise ZeroDivisionError else Ok (x / y).

(** ** Double precision *)

(** The exponent of a rational that is not zero: the greatest [k] with
    [2 ^ k <= |x|]. *)
Definition floor_log2 (x : Q) : Z :=
  let k := (Z.log2 (Z.abs (Qnum x)) - Z.log2 (Z.pos (Qden x)))%Z in
  if Qle_bool (2 ^ k) (Z.abs (Qnum x) # Qden x) then k else (k - 1)%Z.

(** The nearest integer, ties to the even one. *)
Definition round_half_even (x : Q) : Z :=
  let f := Qfloor x in
  let r := x - inject_Z f in
  if py_lt r (1 # 2) then f
  else if py_lt (1 # 2) r then (f + 1)%Z
  else if Z.even f then f else (f + 1)%Z.

(** The unit in the last place of binary64 at [x]: a significand of 53
    bits, and no unit below [2 ^ -1074] (subnormal numbers). *)
Definition ulp (x : Q) : Q := 2 ^ (Z.max (floor_log2 x - 52) (-1074)).

(** The binary64 number nearest to [x], ties to the even significand.
    This is the value of a literal such as [0.7] and of the result of
    an operation on two floats.  A result beyond the largest binary64
    number, which the program turns into an infinity, is outside the
    model. *)
Definition round64 (x : Q) : Q :=
  if Qeq_bool x 0 then 0
  else Qred (inject_Z (round_half_even (x / ulp x)) * ulp x).

(** [x * y] on two Python floats. *)
Definition float_mul (x y : Q) : Q := round64 (x * y).

(** [x / y] on two Python floats: a zero divisor raises. *)
Definition float_div (x y : Q) : result Q :=
  if Qeq_bool y 0 then Raise ZeroDivisionError else Ok (round64 (x / y)).

(** ** JSON values held by the database *)

(** A value read from the database is a number or a text.  Where the
    program converts a value with [float()] (the temperature, the
    humidity, the moisture of a probe), [JText] stands for a text that
    [float()] rejects, and a text such as "12.5" is represented by the
    number it converts to.  A value the program only tests and formats
    (a latitude, a longitude) is represented as it is: a number by
    [JNum], any text, "0" and the empty one included, by [JText]. *)
Inductive jvalue : Type :=
| JNum (q : Q)
| JText (s : string).

(** Python's [float(v)]. *)
Definition py_float (v : jvalue) : result Q :=
  match v with
  | JNum q => Ok q
  | JText _ => Raise ValueError
  end.

(** Python's truth value of an argument that may be [None]: [None], the
    number zero and the empty text are false; every other number and
    every other text, "0" included, is true. *)
Definition py_truthy (v : option jvalue) : bool :=
  match v with
  | None => false
  | Some (JNum q) => py_ne q 0
  | Some (JText s) => negb (String.eqb s "")
  end.

(** ** Risk levels and soil categories *)

Inductive risk : Type := NORMAL | WATCH | WARNING | HIGH.
Inductive soil_cat : Type := DRY | MODERATE | WET.

(** The severity scale NORMAL < WATCH < WARNING < HIGH and the moisture
    scale DRY < MODERATE < WET, as ranks. *)
Definition risk_rank (r : risk) : nat :=
  match r with NORMAL => 0 | WATCH => 1 | WARNING => 2 | HIGH => 3 end.
Definition soil_rank (c : soil_cat) : nat :=
  match c with DRY => 0 | MODERATE => 1 | WET => 2 end.
Definition risk_le (r1 r2 : risk) : Prop := (risk_rank r1 ≤ risk_rank r2)%nat.
Definition soil_le (c1 c2 : soil_cat) : Prop := (soil_rank c1 ≤ soil_rank c2)%nat.

(** [soil_category], app.py lines 99-106. *)
Definition soil_category (soil : Q) : soil_cat :=
  if py_lt soil 30 then DRY
  else if py_lt soil 60 then MODERATE
  else WET.

(** [grid_risk], app.py lines 109-138.  The first argument is what
    [process_field] returned: a risk string or Python's [None].  When no
    [if] matches the function falls off its end, which returns [None]. *)
Definition grid_risk (farm_risk : option risk) (soil : Q) : option risk :=
  let soil_cat := soil_category soil in
  match farm_risk with
  | Some NORMAL => Some NORMAL
  | Some WATCH =>
      match soil_cat with
      | WET => Some WARNING
      | MODERATE => Some WATCH
      | DRY => Some NORMAL
      end
  | Some WARNING =>
      match soil_cat with
      | WET => Some HIGH
      | MODERATE => Some WARNING
      | DRY => Some WATCH
      end
  | Some HIGH =>
      match soil_cat with
      | DRY => Some WARNING
      | _ => Some HIGH
      end
  | None => None
  end.

(** The transition table of the design document (farm risk row, soil
    category column), written from the table and compared with
    [grid_risk] below. *)
Definition transition_table (farm_risk : risk) (c : soil_cat) : risk :=
  match farm_risk, c with
  | NORMAL, DRY => NORMAL   | NORMAL, MODERATE => NORMAL   | NORMAL, WET => NORMAL
  | WATCH, DRY => NORMAL    | WATCH, MODERATE => WATCH     | WATCH, WET => WARNING
  | WARNING, DRY => WATCH   | WARNING, MODERATE => WARNING | WARNING, WET => HIGH
  | HIGH, DRY => WARNING    | HIGH, MODERATE => HIGH       | HIGH, WET => HIGH
  end.


(** ** The data model *)

(** An archive entry, [data_entry] of [process_field]. *)
Record data_entry : Type := {
  temperature : Q;
  humidity : Q;
  timestamp : Z
}.

(** An entry of [historical_logs]: [entry.get("env", {})] and then
    [.get("temp")], [.get("hum")], each of which may be missing. *)
Record log_entry : Type := {
  log_temp : option jvalue;
  log_hum : option jvalue
}.

(** The record written under [live_status/{field}/prediction]. *)
Record prediction : Type := {
  pred_risk : risk;
  anomaly_score : Q;
  confidence : Q;
  reason : string;
  lastUpdated : Z
}.

(** A probe of a field: a dict that may hold [raw_moisture], or
    something that is not a dict. *)
Inductive probe_data : Type :=
| ProbeDict (raw_moisture : option jvalue)
| ProbeOther.

(** A child of [live_status]: a dict that may hold ["env"] and
    ["probes"] (in iteration order), or something that is not a dict. *)
Inductive field_data : Type :=
| FieldDict (env : option (gmap string jvalue)) (probes : list (string * probe_data))
| FieldOther.

(** Writes sent to the database, by path. *)
Inductive db_write : Type :=
| SetHistory (user_id field_id : string) (key : Z) (entry : data_entry)
| SetPrediction (user_id field_id : string) (p : prediction)
| SetProbePrediction (user_id field_id probe_id : string) (r : risk).

(** Lines printed by [process_field] and [prediction_loop]. *)
Inductive line : Type :=
| SkippingArchive (field_id : string) (diff : Z)
| Archived (user_id field_id : string) (ts : Z)
| NoHistoricalLogs (field_id : string)
| InsufficientData (field_id : string) (n : nat)
| PredictionLine (field_id : string) (r : risk) (err : Q)
| StartingLoop
| FetchingUsers
| FoundUsers (n : nat)
| CheckingUser (user_id : string)
| NoLiveStatus (user_id : string)
| CheckingField (field_id : string)
| ProcessingEnv (field_id : string)
| ProbeLine (probe_id : string) (moisture : Q) (r : risk)
| InvalidMoisture (probe_id : string) (raw : jvalue)
| UnexpectedProbeError (probe_id : string) (e : exn)
| SkippingNoEnv (field_id : string)
| GlobalLoopError (e : exn)
| Sleeping.

(** What the program reads and changes.  [history] is the archive
    [users/{user}/history/{field}], keyed by the millisecond timestamp
    (the key order of the database is the numeric order of these keys);
    [historical_logs] lists [users/{user}/historical_logs/{field}] in key
    order; [users] and [live_status] are the tree the scheduler walks;
    [clock] is the time in epoch milliseconds that [time.time()]
    reads; the time the program itself takes is not modelled, so that
    within a run the clock moves only when the program sleeps, and a
    statement about readings taken at different times sets the clock
    between them.  [writes], [stdout] and [requests] record,
    oldest first, the database writes, the printed lines and the HTTP
    requests (latitude, longitude, days back).  Database calls
    themselves are taken to succeed. *)
Record world : Type := {
  history : gmap (string * string) (gmap Z data_entry);
  historical_logs : gmap (string * string) (list log_entry);
  users : list string;
  live_status : gmap string (list (string * field_data));
  clock : Z;
  writes : list db_write;
  stdout : list line;
  requests : list (jvalue * jvalue * nat)
}.

(** What is loaded at start-up or lives outside the process: the
    threshold read from [global_climate_threshold.txt], NumPy's [log],
    the scaler and the autoencoder (either may raise), and the answer of
    the irradiance service for a point and a number of days back
    ([None] when anything inside the [try] raises). *)
Class Externals : Type := {
  THRESHOLD : Q;
  np_log : Q → Q;
  scaler_transform : list Q → result (list Q);
  autoencoder_predict : list Q → result (list Q);
  nasa_power : jvalue → jvalue → nat → option Q
}.

(** ** Effectful computations *)

Definition M (A : Type) : Type := world → result A * world.

Definition ret {A} (a : A) : M A := λ w, (Ok a, w).

Definition bind {A B} (m : M A) (k : A → M B) : M B :=
  λ w, match m w with
       | (Ok a, w') => k a w'
       | (Raise e, w') => (Raise e, w')
       end.

Definition raise {A} (e : exn) : M A := λ w, (Raise e, w).

Definition lift {A} (r : result A) : M A := λ w, (r, w).

(** [try: body except Exception as e: handler e]. *)
Definition try_except {A} (body : M A) (handler : exn → M A) : M A :=
  λ w, match body w with
       | (Ok a, w') => (Ok a, w')
       | (Raise e, w') => handler e w'
       end.

Declare Scope py_scope.
Delimit Scope py_scope with py.
Notation "x <- m ;; k" := (bind m (λ x, k))
  (at level 20, m at level 99, k at level 200, only parsing) : py_scope.
Notation "m ;; k" := (bind m (λ _, k))
  (at level 100, k at level 200, only parsing, right associativity) : py_scope.
Notation "x <~ r ;; k" := (rbind r (λ x, k))
  (at level 20, r at level 99, k at level 200, only parsing) : py_scope.
Local Open Scope py_scope.

(** [for x in l: body x]. *)
Fixpoint for_each {A} (body : A → M unit) (l : list A) : M unit :=
  match l with
  | [] => ret ()
  | x :: xs => body x ;; for_each body xs
  end.

(** *** Primitive effects *)

Definition set_history (h : gmap (string * string) (gmap Z data_entry)) (w : world) : world :=
  {| history := h; historical_logs := historical_logs w; users := users w;
     live_status := live_status w; clock := clock w; writes := writes w;
     stdout := stdout w; requests := requests w |}.

Definition add_write (x : db_write) (w : world) : world :=
  {| history := history w; historical_logs := historical_logs w; users := users w;
     live_status := live_status w; clock := clock w; writes := writes w ++ [x];
     stdout := stdout w; requests := requests w |}.

Definition add_line (x : line) (w : world) : world :=
  {| history := history w; historical_logs := historical_logs w; users := users w;
     live_status := live_status w; clock := clock w; writes := writes w;
     stdout := stdout w ++ [x]; requests := requests w |}.

Definition add_request (x : jvalue * jvalue * nat) (w : world) : world :=
  {| history := history w; historical_logs := historical_logs w; users := users w;
     live_status := live_status w; clock := clock w; writes := writes w;
     stdout := stdout w; requests := requests w ++ [x] |}.

Definition set_clock (t : Z) (w : world) : world :=
  {| history := history w; historical_logs := historical_logs w; users := users w;
     live_status := live_status w; clock := t; writes := writes w;
     stdout := stdout w; requests := requests w |}.

Definition print (x : line) : M unit := λ w, (Ok (), add_line x w).

(** [int(time.time() * 1000)], also used for [datetime.utcnow()]. *)
Definition time_ms : M Z := λ w, (Ok (clock w), w).

(** [time.sleep(seconds)]. *)
Definition time_sleep (seconds : Z) : M unit :=
  λ w, (Ok (), set_clock (clock w + seconds * 1000) w).

Definition history_of (w : world) (user_id field_id : string) : gmap Z data_entry :=
  default ∅ (history w !! (user_id, field_id)).

(** The greatest key of an archive, [None] when it is empty. *)
Definition last_key (h : gmap Z data_entry) : option Z :=
  foldr (λ k acc, Some (match acc with Some m => Z.max k m | None => k end))
        None (map_to_list h).*1.

(** [history_root.order_by_key().limit_to_last(1).get()], reduced to
    the key of the entry it returns. *)
Definition db_history_last (user_id field_id : string) : M (option Z) :=
  λ w, (Ok (last_key (history_of w user_id field_id)), w).

(** [history_ref.child(timestamp).set(data_entry)]. *)
Definition db_set_history (user_id field_id : string) (ts : Z) (entry : data_entry) : M unit :=
  λ w, (Ok (), add_write (SetHistory user_id field_id ts entry)
                 (set_history (<[(user_id, field_id) := <[ts := entry]> (history_of w user_id field_id)]>
                                 (history w)) w)).

(** [logs_ref.order_by_key().limit_to_last(47).get()]. *)
Definition db_logs_last47 (user_id field_id : string) : M (list log_entry) :=
  λ w, let logs := default [] (historical_logs w !! (user_id, field_id)) in
       (Ok (drop (length logs - 47) logs), w).

(** [db.reference(".../prediction").set({...})]. *)
Definition db_set_prediction (user_id field_id : string) (p : prediction) : M unit :=
  λ w, (Ok (), add_write (SetPrediction user_id field_id p) w).

(** [db.reference(".../probes/{probe_id}/prediction").set(value)].
    [Reference.set] of firebase_admin refuses [None] with a
    [ValueError] ("Value must not be None.") before anything is sent. *)
Definition db_set_probe_prediction (user_id field_id probe_id : string)
    (value : option risk) : M unit :=
  match value with
  | None => raise ValueError
  | Some r => λ w, (Ok (), add_write (SetProbePrediction user_id field_id probe_id r) w)
  end.

(** [db.reference("users").get(shallow=True) or {}], its keys. *)
Definition db_get_users : M (list string) := λ w, (Ok (users w), w).

(** [db.reference(f"users/{user_id}/live_status").get()]; nothing
    stored reads as an empty tree. *)
Definition db_get_live_status (user_id : string) : M (list (string * field_data)) :=
  λ w, (Ok (default [] (live_status w !! user_id)), w).

(** ** The program *)

Section app.
Context `{Externals}.

(** *** Utility functions *)

(** [dew_point], app.py lines 61-66.  The first quotient divides two
    Python floats and raises on a zero divisor; [np.log] makes [alpha] a
    NumPy scalar, whose division does not raise. *)
Definition dew_point (temp rh : Q) : result Q :=
  let a := 17.27 in
  let b := 237.7 in
  let rh := if py_le rh 0 then 0.1 else rh in
  q <~ py_div (a * temp) (b + temp) ;;
  let alpha := q + np_log (rh / 100) in
  Ok ((b * alpha) / (a - alpha)).

(** Lines 82-85: the request for the day [i] days back and the value
    read from its answer; [None] stands for any exception inside the
    [try], which the bare [except] turns into [continue]. *)
Definition requests_get (lat lon : jvalue) (i : nat) : M (option Q) :=
  λ w, (Ok (nasa_power lat lon i), add_request (lat, lon, i) w).

(** The loop of [get_latest_solar] over the days still to try. *)
Fixpoint solar_days (lat lon : jvalue) (days : list nat) : M Q :=
  match days with
  | [] => ret 5.0
  | i :: rest =>
      r <- requests_get lat lon i ;;
      match r with
      | Some val => if py_ne val (-999.0) then ret val else solar_days lat lon rest
      | None => solar_days lat lon rest
      end
  end.

(** [get_latest_solar], app.py lines 68-90. *)
Definition get_latest_solar (lat lon : option jvalue) : M Q :=
  if negb (py_truthy lat) || negb (py_truthy lon) then ret 0.0
  else
    match lat, lon with
    | Some la, Some lo => solar_days la lo (seq 0 5)
    | _, _ => ret 0.0 (* not reached: [None] is false *)
    end.

Definition np_sum (values : list Q) : Q := fold_left Qplus values 0.

Definition np_mean (values : list Q) : Q :=
  np_sum values / inject_Z (Z.of_nat (length values)).

(** [np.min] and [np.max] raise [ValueError] on an empty sequence. *)
Definition np_min (values : list Q) : result Q :=
  match values with
  | [] => Raise ValueError
  | v :: vs => Ok (fold_left Qmin vs v)
  end.

Definition np_max (values : list Q) : result Q :=
  match values with
  | [] => Raise ValueError
  | v :: vs => Ok (fold_left Qmax vs v)
  end.

(** [summarize], app.py lines 92-93. *)
Definition summarize (values : list Q) : result (Q * Q * Q) :=
  let mean := np_mean values in
  lo <~ np_min values ;;
  hi <~ np_max values ;;
  Ok (mean, lo, hi).

(** *** Core logic *)

(** Lines 162-185 of [process_field]: the archive step. *)
Definition archive_live (user_id field_id : string) (timestamp : Z)
    (entry : data_entry) : M unit :=
  last_entry <- db_history_last user_id field_id ;;
  match last_entry with
  | Some last_ts =>
      let current_ts := timestamp in
      let diff := (current_ts - last_ts)%Z in
      if (diff <? 1500000)%Z then
        print (SkippingArchive field_id diff)
      else
        db_set_history user_id field_id timestamp entry ;;
        print (Archived user_id field_id timestamp)
  | None =>
      db_set_history user_id field_id timestamp entry ;;
      print (Archived user_id field_id timestamp)
  end.

(** Lines 196-203: the records of the log entries that hold both a
    temperature and a humidity. *)
Fixpoint collect_records (logs : list log_entry) : result (list (Q * Q)) :=
  match logs with
  | [] => Ok []
  | entry :: rest =>
      match log_temp entry, log_hum entry with
      | Some temp, Some hum =>
          t <~ py_float temp ;;
          h <~ py_float hum ;;
          records <~ collect_records rest ;;
          Ok ((t, h) :: records)
      | _, _ => collect_records rest
      end
  end.

(** Lines 228-232: the feature vector. *)
Fixpoint extend_summaries (features : list Q) (arrs : list (list Q)) : result (list Q) :=
  match arrs with
  | [] => Ok features
  | arr :: rest =>
      s <~ summarize arr ;;
      let '(mean, lo, hi) := s in
      extend_summaries (features ++ [mean; lo; hi]) rest
  end.

Definition build_features (temps hums dews dpdiffs : list Q) (solar : Q) : result (list Q) :=
  features <~ extend_summaries [] [temps; hums; dews; dpdiffs] ;;
  Ok (features ++ [solar; solar; solar]).

(** Line 237: [float(np.mean((X - recon) ** 2))]. *)
Definition reconstruction_error (X recon : list Q) : Q :=
  np_mean (zip_with (λ x r, (x - r) * (x - r)) X recon).

(** Lines 239-243: the risk of a reconstruction error.  The bound of
    line 242 is the product of two floats, the threshold and the
    literal [0.7]. *)
Definition classify (error : Q) : risk :=
  if py_gt error THRESHOLD then HIGH
  else if py_gt error (float_mul THRESHOLD (round64 0.7)) then WATCH
  else NORMAL.

(** Lines 249-253. *)
Definition reason_of (r : risk) : string :=
  match r with
  | HIGH => "High humidity and low solar drying"
  | WATCH => "Elevated risk parameters detected"
  | _ => "Normal conditions"
  end.

(** [round(x, 2)] on a float: the hundredth nearest to the value of
    [x], ties to the even one, and then the float nearest to that
    hundredth. *)
Definition py_round2 (x : Q) : Q :=
  round64 (inject_Z (round_half_even (x * 100)) / 100).

(** Lines 221-224: the coordinates of the field, hard-coded unless the
    sample carries both. *)
Definition coordinates (env_data : gmap string jvalue) : jvalue * jvalue :=
  match env_data !! "lat", env_data !! "lon" with
  | Some lat, Some lon => (lat, lon)
  | _, _ => (JNum 20.5937, JNum 78.9629)
  end.

(** Lines 234-265 of [process_field]: the prediction from a feature
    vector, and its record. *)
Definition predict_and_write (user_id field_id : string) (features : list Q)
    : M (option risk) :=
  X <- lift (scaler_transform features) ;;
  recon <- lift (autoencoder_predict X) ;;
  let error := reconstruction_error X recon in
  let risk := classify error in
  ratio <- lift (float_div error THRESHOLD) ;;
  now <- time_ms ;;
  db_set_prediction user_id field_id
    {| pred_risk := risk; anomaly_score := error; confidence := py_round2 ratio;
       reason := reason_of risk; lastUpdated := now |} ;;
  print (PredictionLine field_id risk error) ;;
  ret (Some risk).

(** Lines 215-265 of [process_field]: scoring a full window. *)
Definition score_window (user_id field_id : string) (env_data : gmap string jvalue)
    (records : list (Q * Q)) : M (option risk) :=
  let temps := records.*1 in
  let hums := records.*2 in
  dews <- lift (rmap_list (λ th, dew_point th.1 th.2) (zip temps hums)) ;;
  let dpdiffs := zip_with (λ t d, t - d) temps dews in
  let '(lat, lon) := coordinates env_data in
  solar <- get_latest_solar (Some lat) (Some lon) ;;
  features <- lift (build_features temps hums dews dpdiffs solar) ;;
  predict_and_write user_id field_id features.

(** Lines 187-265 of [process_field]: the window of the last 47 log
    entries and the live sample, and its scoring when it is full. *)
Definition evaluate_window (user_id field_id : string)
    (env_data : gmap string jvalue) (temp hum : jvalue) : M (option risk) :=
  logs <- db_logs_last47 user_id field_id ;;
  match logs with
  | [] => print (NoHistoricalLogs field_id) ;; ret None
  | _ :: _ =>
      records <- lift (collect_records logs) ;;
      t <- lift (py_float temp) ;;
      h <- lift (py_float hum) ;;
      let records := records ++ [(t, h)] in
      if (length records <? 48)%nat then
        print (InsufficientData field_id (length records)) ;; ret None
      else
        score_window user_id field_id env_data records
  end.

(** [process_field], app.py lines 145-265.  A plain [return] is
    [None]. *)
Definition process_field (user_id field_id : string)
    (env_data : gmap string jvalue) : M (option risk) :=
  match env_data !! "temp", env_data !! "hum" with
  | Some temp, Some hum =>
      timestamp <- time_ms ;;
      t <- lift (py_float temp) ;;
      h <- lift (py_float hum) ;;
      archive_live user_id field_id timestamp
        {| temperature := t; humidity := h; timestamp := timestamp |} ;;
      evaluate_window user_id field_id env_data temp hum
  | _, _ => ret None
  end.

(** Lines 294-311 of [prediction_loop]: one probe. *)
Definition run_probe (user_id field_id : string) (farm_risk : option risk)
    (probe : string * probe_data) : M unit :=
  let '(probe_id, probe_data) := probe in
  match probe_data with
  | ProbeOther => ret ()
  | ProbeDict None => ret ()
  | ProbeDict (Some raw_moisture) =>
      try_except
        (moisture_val <- lift (py_float raw_moisture) ;;
         let probe_risk_level := grid_risk farm_risk moisture_val in
         db_set_probe_prediction user_id field_id probe_id probe_risk_level ;;
         match probe_risk_level with
         | Some r => print (ProbeLine probe_id moisture_val r)
         | None => ret ()
         end)
        (λ e, match e with
              | ValueError => print (InvalidMoisture probe_id raw_moisture)
              | _ => print (UnexpectedProbeError probe_id e)
              end)
  end.

(** Lines 286-313: one child of [live_status]. *)
Definition run_field (user_id : string) (field : string * field_data) : M unit :=
  let '(field_id, field_data) := field in
  print (CheckingField field_id) ;;
  match field_data with
  | FieldDict (Some env) probes =>
      print (ProcessingEnv field_id) ;;
      farm_risk <- process_field user_id field_id env ;;
      for_each (run_probe user_id field_id farm_risk) probes
  | _ => print (SkippingNoEnv field_id)
  end.

(** Lines 276-313: one user. *)
Definition run_user (user_id : string) : M unit :=
  print (CheckingUser user_id) ;;
  live_status <- db_get_live_status user_id ;;
  match live_status with
  | [] => print (NoLiveStatus user_id)
  | _ :: _ => for_each (run_field user_id) live_status
  end.

(** Lines 271-318: the body of [while True] up to the sleep, one fleet
    pass.  The only handler around the pass is the outer one. *)
Definition fleet_pass : M unit :=
  try_except
    (print FetchingUsers ;;
     users <- db_get_users ;;
     print (FoundUsers (length users)) ;;
     for_each run_user users)
    (λ e, print (GlobalLoopError e)).

(** [prediction_loop], app.py lines 268-321, observed for a number of
    iterations of its [while True]. *)
Fixpoint iterations (n : nat) : M unit :=
  match n with
  | O => ret ()
  | S n' =>
      fleet_pass ;;
      print Sleeping ;;
      time_sleep 1800 ;;
      iterations n'
  end.

Definition prediction_loop (n : nat) : M unit :=
  print StartingLoop ;; iterations n.

End app.

(** ** The design document's formulas and notions *)

Section notions.
Context `{Externals}.



End notions.

(** A log entry counts for the window when it holds both values. *)
Definition has_both (entry : log_entry) : bool :=
  match log_temp entry, log_hum entry with
  | Some _, Some _ => true
  | _, _ => false
  end.

(** The log entries read for a field: the last 47 in key order. *)
Definition last47 (w : world) (user_id field_id : string) : list log_entry :=
  let logs := default [] (historical_logs w !! (user_id, field_id)) in
  drop (length logs - 47) logs.

(** The size of the scoring window of a field: the retrieved entries
    that hold both values, and the live sample. *)
Definition window_size (w : world) (user_id field_id : string) : nat :=
  length (filter (λ entry, has_both entry = true) (last47 w user_id field_id)) + 1.

(** Every value held by the retrieved log entries is a number. *)
Definition numeric (v : option jvalue) : Prop :=
  match v with
  | Some (JText _) => False
  | _ => True
  end.

Definition logs_numeric (logs : list log_entry) : Prop :=
  Forall (λ entry, numeric (log_temp entry) ∧ numeric (log_hum entry)) logs.

(** A temperature for which the first quotient of [dew_point] is
    defined: it is not -237.7. *)
Definition dew_defined (temp : Q) : Prop := ¬ 237.7 + temp == 0.

Definition log_dew_defined (entry : log_entry) : Prop :=
  match log_temp entry with
  | Some (JNum q) => dew_defined q
  | _ => True
  end.

(** An answer of the irradiance service that yields no value: the
    request failed, or it returned the sentinel -999.0. *)
Definition no_data (answer : option Q) : Prop :=
  match answer with
  | None => True
  | Some val => val == -999.0
  end.

(** The world after the requests for the given days, in order. *)
Definition requested (lat lon : jvalue) (days : list nat) (w : world) : world :=
  foldl (λ w i, add_request (lat, lon, i) w) w days.




(** A field was evaluated when its "Processing env data" line was
    printed, which comes just before the call of [process_field]. *)
Definition evaluated (field_id : string) (w : world) : Prop :=
  ProcessingEnv field_id ∈ stdout w.

(** The kinds of database writes. *)
Definition is_archive_write (x : db_write) : bool :=
  match x with SetHistory _ _ _ _ => true | _ => false end.
Definition is_prediction_write (x : db_write) : bool :=
  match x with SetPrediction _ _ _ => true | _ => false end.
Definition is_probe_write (x : db_write) : bool :=
  match x with SetProbePrediction _ _ _ _ => true | _ => false end.

Definition archive_writes (w : world) : list db_write :=
  filter (λ x, is_archive_write x = true) (writes w).
Definition prediction_writes (w : world) : list db_write :=
  filter (λ x, is_prediction_write x = true) (writes w).
Definition probe_writes (w : world) : list db_write :=
  filter (λ x, is_probe_write x = true) (writes w).

(** A computation leaves an observation of the world unchanged. *)
Definition keeps {A B} (obs : world → B) (m : M A) : Prop :=
  ∀ w, obs (m w).2 = obs w.

(** The world after [history_ref.child(ts).set(entry)] and its print. *)
Definition archived (user_id field_id : string) (ts : Z) (entry : data_entry)
    (w : world) : world :=
  add_line (Archived user_id field_id ts)
    (add_write (SetHistory user_id field_id ts entry)
       (set_history (<[(user_id, field_id) := <[ts := entry]> (history_of w user_id field_id)]>
                       (history w)) w)).

(** [T] is the key of the most recent entry of an archive. *)
Definition most_recent (h : gmap Z data_entry) (T : Z) : Prop :=
  is_Some (h !! T) ∧ ∀ k, is_Some (h !! k) → (k ≤ T)%Z.

(** Observations that do not look at what an effect changes. *)
Definition ignores_lines {B} (obs : world → B) : Prop :=
  ∀ x w, obs (add_line x w) = obs w.
Definition ignores_requests {B} (obs : world → B) : Prop :=
  ∀ x w, obs (add_request x w) = obs w.
Definition ignores_history {B} (obs : world → B) : Prop :=
  ∀ h w, obs (set_history h w) = obs w.
Definition ignores_clock {B} (obs : world → B) : Prop :=
  ∀ t w, obs (set_clock t w) = obs w.
Definition ignores_writes {B} (kind : db_write → bool) (obs : world → B) : Prop :=
  ∀ x w, kind x = true → obs (add_write x w) = obs w.

(** ** Concrete data used to exercise the statements *)

Module Demo.

Definition externals : Externals := {|
  THRESHOLD := 0.05;
  np_log := λ _, 0;
  scaler_transform := λ _, Ok [1 # 10];
  autoencoder_predict := λ _, Ok [0];
  nasa_power := λ _ _ i, if (i =? 2)%nat then Some 4.5
                         else if (i =? 1)%nat then Some (-999.0) else None
|}.


Definition sample : gmap string jvalue := {[ "temp" := JNum 25; "hum" := JNum 50 ]}.
Definition malformed : gmap string jvalue := {[ "temp" := JText "n/a"; "hum" := JNum 50 ]}.

Definition log25 : log_entry := {| log_temp := Some (JNum 25); log_hum := Some (JNum 50) |}.

Definition entry25 (ts : Z) : data_entry :=
  {| temperature := 25; humidity := 50; timestamp := ts |}.

(** One user with two fields; the first field's sample is malformed. *)
Definition fleet (logs : nat) (archive : gmap Z data_entry) (now : Z) : world := {|
  history := {[ ("u", "f2") := archive ]};
  historical_logs := {[ ("u", "f2") := replicate logs log25 ]};
  users := ["u"];
  live_status := {[ "u" := [("f1", FieldDict (Some malformed) []);
                            ("f2", FieldDict (Some sample) [("p", ProbeDict (Some (JNum 70)))])] ]};
  clock := now;
  writes := [];
  stdout := [];
  requests := []
|}.

(** Three log entries and an empty archive; three log entries and an
    archive whose last entry is 1499999 ms old; a full window. *)
Definition quiet : world := fleet 3 ∅ 0.
Definition throttled : world := fleet 3 {[ 1000%Z := entry25 1000 ]} 1500999.
Definition full : world := fleet 47 ∅ 0.

End Demo.

(** ** The maintenance script, [cleanup_history.py] *)

(** Lines printed by [clean_history]. *)
Inductive cleanup_line : Type :=
| CleaningUp
| DeletingHistory (user_id field_id : string)
| Deleted.

(** Lines 18-24 of [clean_history]: one field of a user.  The archive
    is read with [hist_ref.get(shallow=True)], which is false when
    nothing is stored, and deleted as a whole otherwise. *)
Definition clean_field (user_id : string) (s : world * list cleanup_line)
    (field_id : string) : world * list cleanup_line :=
  let '(w, out) := s in
  if (size (history_of w user_id field_id) =? 0)%nat then (w, out)
  else (set_history (delete (user_id, field_id) (history w)) w,
        out ++ [DeletingHistory user_id field_id; Deleted]).

(** Lines 13-24: one user; a user without live status is skipped. *)
Definition clean_user (s : world * list cleanup_line) (user_id : string)
    : world * list cleanup_line :=
  let ls_data := default [] (live_status s.1 !! user_id) in
  foldl (clean_field user_id) s ls_data.*1.

(** [clean_history], cleanup_history.py lines 10-24: the world it
    leaves and the lines it printed. *)
Definition clean_history (w : world) : world * list cleanup_line :=
  foldl clean_user (w, [CleaningUp]) (users w).

(** ** Further notions *)

(** A computation relates every world to the world it leaves. *)
Definition steps {A} (R : world → world → Prop) (m : M A) : Prop :=
  ∀ w, R w (m w).2.

(** The archive step of [process_field] writes at the current time:
    the archive is empty or its last key is at least 25 minutes old. *)
Definition archive_due (w : world) (user_id field_id : string) : Prop :=
  match last_key (history_of w user_id field_id) with
  | None => True
  | Some T => (1500000 ≤ clock w - T)%Z
  end.

(** The history after an entry is put under the current time. *)
Definition put_entry (user_id field_id : string) (entry : data_entry) (w : world)
    : gmap (string * string) (gmap Z data_entry) :=
  <[(user_id, field_id) := <[clock w := entry]> (history_of w user_id field_id)]> (history w).

(** An archive is well formed when every entry sits under its own
    timestamp and two entries are at least 1,500,000 ms apart. *)
Definition archive_ok (h : gmap Z data_entry) : Prop :=
  (∀ k e, h !! k = Some e → timestamp e = k)
  ∧ (∀ k1 k2, is_Some (h !! k1) → is_Some (h !! k2) → (k1 < k2)%Z →
     (1500000 ≤ k2 - k1)%Z).

Definition archives_ok (w : world) : Prop :=
  ∀ u f, archive_ok (history_of w u f).

(** Nothing is taken out of an archive or replaced in it. *)
Definition archives_grow (w w' : world) : Prop :=
  ∀ u f k e, history_of w u f !! k = Some e → history_of w' u f !! k = Some e.

(** The user and field a write is for. *)
Definition write_target (x : db_write) : string * string :=
  match x with
  | SetHistory u f _ _ => (u, f)
  | SetPrediction u f _ => (u, f)
  | SetProbePrediction u f _ _ => (u, f)
  end.

(** A computation for one field only adds writes for that field and
    leaves the archives of the other fields alone. *)
Definition confined (user_id field_id : string) (w w' : world) : Prop :=
  (∃ new, writes w' = writes w ++ new
          ∧ Forall (λ x, write_target x = (user_id, field_id)) new)
  ∧ ∀ u f, (u, f) ≠ (user_id, field_id) → history_of w' u f = history_of w u f.

(** The probe predictions due for the probes of a field whose farm
    risk is [r]: one for each probe that is a dict holding a numeric
    [raw_moisture], in the order of the probes. *)
Definition due_probe_writes (user_id field_id : string) (r : risk)
    (probes : list (string * probe_data)) : list db_write :=
  omap (λ probe,
          match probe.2 with
          | ProbeDict (Some (JNum m)) =>
              Some (SetProbePrediction user_id field_id probe.1
                      (transition_table r (soil_category m)))
          | _ => None
          end) probes.

(** The values a scored window needs: at least 47 log entries are
    stored and each of the last 47 holds both values. *)
Definition full_usable_window (w : world) (user_id field_id : string) : Prop :=
  (47 ≤ length (default [] (historical_logs w !! (user_id, field_id))))%nat
  ∧ Forall (λ entry, has_both entry = true) (last47 w user_id field_id).

(** The lines printed do not go away. *)
Definition stdout_grows (w w' : world) : Prop :=
  ∀ x, x ∈ stdout w → x ∈ stdout w'.

(** A field the maintenance script visits: a key of the live status
    of a user of the database. *)
Definition listed (w : world) (user_id field_id : string) : Prop :=
  user_id ∈ users w ∧ field_id ∈ (default [] (live_status w !! user_id)).*1.

(** The (user, field) pairs the maintenance script visits, in order. *)
Definition visits (w : world) : list (string * string) :=
  flat_map (λ u, (λ f, (u, f)) <$> (default [] (live_status w !! u)).*1) (users w).

(** Two worlds that differ at most in their archives. *)
Definition same_but_history (w w' : world) : Prop :=
  historical_logs w' = historical_logs w ∧ users w' = users w
  ∧ live_status w' = live_status w ∧ clock w' = clock w
  ∧ writes w' = writes w ∧ stdout w' = stdout w ∧ requests w' = requests w.

(** *** More concrete data *)

Module Fixtures.

(** A probe that is not a dict, one with a text for moisture, one
    without moisture and two good ones. *)
Definition probes : list (string * probe_data) :=
  [("p1", ProbeDict (Some (JNum 70))); ("p2", ProbeOther);
   ("p3", ProbeDict (Some (JText "wet"))); ("p4", ProbeDict None);
   ("p5", ProbeDict (Some (JNum 10)))].

(** Two users; the second has no live status; archives for a listed
    field, for a field that is not listed and for another user. *)
Definition store : world := {|
  history := {[ ("u", "f1") := {[ 1000%Z := Demo.entry25 1000 ]};
                ("u", "gone") := {[ 5%Z := Demo.entry25 5 ]};
                ("v", "f1") := {[ 7%Z := Demo.entry25 7 ]} ]};
  historical_logs := ∅;
  users := ["u"; "v"];
  live_status := {[ "u" := [("f1", FieldDict (Some Demo.sample) []);
                            ("f2", FieldDict None [])] ]};
  clock := 2000;
  writes := [];
  stdout := [];
  requests := []
|}.

(** The externals of [Demo] with another threshold. *)
Definition calibrated (threshold : Q) : Externals := {|
  THRESHOLD := threshold;
  np_log := @np_log Demo.externals;
  scaler_transform := @scaler_transform Demo.externals;
  autoencoder_predict := @autoencoder_predict Demo.externals;
  nasa_power := @nasa_power Demo.externals
|}.


End Fixtures.

(** ** Basic facts on comparisons *)

Lemma py_lt_true x y : py_lt x y = true ↔ x < y.
Proof.
  unfold py_lt. rewrite negb_true_iff. split.
  - intros H. apply Qnot_le_lt. intros Hle.
    apply Qle_bool_iff in Hle. congruence.
  - intros H. destruct (Qle_bool y x) eqn:E; [|done].
    apply Qle_bool_iff in E. lra.
Qed.

Lemma py_lt_false x y : py_lt x y = false ↔ y <= x.
Proof.
  unfold py_lt. rewrite negb_false_iff. apply Qle_bool_iff.
Qed.



Lemma py_gt_true x y : py_gt x y = true ↔ y < x.
Proof. apply py_lt_true. Qed.

Lemma py_gt_false x y : py_gt x y = false ↔ x <= y.
Proof. apply py_lt_false. Qed.

(** ** Rounding to double precision *)









(** ** The soil grid *)

Lemma soil_category_dry soil : soil < 30 → soil_category soil = DRY.
Proof.
  intros H. unfold soil_category.
  by rewrite (proj2 (py_lt_true soil 30) H).
Qed.

Lemma soil_category_moderate soil :
  30 <= soil → soil < 60 → soil_category soil = MODERATE.
Proof.
  intros H1 H2. unfold soil_category.
  rewrite (proj2 (py_lt_false soil 30) H1).
  by rewrite (proj2 (py_lt_true soil 60) H2).
Qed.

Lemma soil_category_wet soil : 60 <= soil → soil_category soil = WET.
Proof.
  intros H. unfold soil_category.
  rewrite (proj2 (py_lt_false soil 30)) by lra.
  by rewrite (proj2 (py_lt_false soil 60) H).
Qed.

Lemma soil_category_mono m1 m2 :
  m1 <= m2 → soil_le (soil_category m1) (soil_category m2).
Proof.
  intros H. unfold soil_le, soil_category.
  destruct (py_lt m1 30) eqn:E1; [simpl; destruct (py_lt m2 30), (py_lt m2 60); simpl; lia|].
  apply py_lt_false in E1.
  rewrite (proj2 (py_lt_false m2 30)) by lra.
  destruct (py_lt m1 60) eqn:E2; [destruct (py_lt m2 60); simpl; lia|].
  apply py_lt_false in E2.
  rewrite (proj2 (py_lt_false m2 60)) by lra.
  simpl. lia.
Qed.

Lemma grid_risk_table (r : risk) (soil : Q) :
  grid_risk (Some r) soil = Some (transition_table r (soil_category soil)).
Proof. unfold grid_risk. by destruct r, (soil_category soil). Qed.

Lemma transition_table_mono r1 r2 c1 c2 :
  risk_le r1 r2 → soil_le c1 c2 →
  risk_le (transition_table r1 c1) (transition_table r2 c2).
Proof.
  unfold risk_le, soil_le.
  destruct r1, r2, c1, c2; simpl; lia.
Qed.

Lemma grid_risk_none soil : grid_risk None soil = None.
Proof. done. Qed.

(** ** Classification of the reconstruction error *)

Section classification.
Context `{Externals}.




End classification.

(** ** Dew point *)

Section dew.
Context `{Externals}.


Lemma dew_point_zero_division rh : dew_point (-237.7) rh = Raise ZeroDivisionError.
Proof. reflexivity. Qed.


Lemma py_div_raise x y : y == 0 → py_div x y = Raise ZeroDivisionError.
Proof.
  intros Hy. unfold py_div.
  by rewrite (proj2 (Qeq_bool_iff y 0) Hy).
Qed.



End dew.

(** ** Summaries and the feature vector *)



Ltac here_or_further :=
  repeat first [ apply list_elem_of_here | apply list_elem_of_further ]; assumption.




Lemma summarize_empty : summarize [] = Raise ValueError.
Proof. reflexivity. Qed.






(** ** Reasoning about effectful computations *)

Lemma bind_ok {A B} (m : M A) (k : A → M B) w a w' :
  m w = (Ok a, w') → bind m k w = k a w'.
Proof. intros E. unfold bind. by rewrite E. Qed.

Lemma bind_raise {A B} (m : M A) (k : A → M B) w e w' :
  m w = (Raise e, w') → bind m k w = (Raise e, w').
Proof. intros E. unfold bind. by rewrite E. Qed.

Lemma try_except_ok {A} (body : M A) handler w a w' :
  body w = (Ok a, w') → try_except body handler w = (Ok a, w').
Proof. intros E. unfold try_except. by rewrite E. Qed.

Lemma try_except_raise {A} (body : M A) handler w e w' :
  body w = (Raise e, w') → try_except body handler w = handler e w'.
Proof. intros E. unfold try_except. by rewrite E. Qed.

Lemma for_each_app_ok {A} (body : A → M unit) l1 l2 w w1 :
  for_each body l1 w = (Ok (), w1) →
  for_each body (l1 ++ l2) w = for_each body l2 w1.
Proof.
  revert w. induction l1 as [|x l1 IH]; intros w; simpl.
  - unfold ret. by intros [= ->].
  - unfold bind. destruct (body x w) as [[[]|e] w0]; [|done].
    intros E. by apply IH.
Qed.

Lemma for_each_cons_raise {A} (body : A → M unit) x l w e w' :
  body x w = (Raise e, w') → for_each body (x :: l) w = (Raise e, w').
Proof. intros E. simpl. by apply bind_raise. Qed.

Section keeps.
Context {B : Type} (obs : world → B).

Lemma keeps_ret {A} (a : A) : keeps obs (ret a).
Proof. by intros w. Qed.

Lemma keeps_raise {A} e : keeps obs (raise (A:=A) e).
Proof. by intros w. Qed.

Lemma keeps_lift {A} (r : result A) : keeps obs (lift r).
Proof. by intros w. Qed.

Lemma keeps_bind {A C} (m : M A) (k : A → M C) :
  keeps obs m → (∀ a, keeps obs (k a)) → keeps obs (bind m k).
Proof.
  intros Hm Hk w. unfold bind. specialize (Hm w).
  destruct (m w) as [[a|e] w']; simpl in *; [|done].
  by rewrite Hk.
Qed.

Lemma keeps_try_except {A} (body : M A) handler :
  keeps obs body → (∀ e, keeps obs (handler e)) → keeps obs (try_except body handler).
Proof.
  intros Hm Hk w. unfold try_except. specialize (Hm w).
  destruct (body w) as [[a|e] w']; simpl in *; [done|].
  by rewrite Hk.
Qed.

Lemma keeps_for_each {A} (body : A → M unit) l :
  (∀ x, keeps obs (body x)) → keeps obs (for_each body l).
Proof.
  intros Hb. induction l as [|x l IH]; simpl.
  - apply keeps_ret.
  - apply keeps_bind; [apply Hb | intros _; apply IH].
Qed.

Lemma keeps_print x : ignores_lines obs → keeps obs (print x).
Proof. intros Hl w. apply Hl. Qed.

Lemma keeps_time_ms : keeps obs time_ms.
Proof. by intros w. Qed.

Lemma keeps_time_sleep s : ignores_clock obs → keeps obs (time_sleep s).
Proof. intros Hc w. apply Hc. Qed.

Lemma keeps_db_history_last u f : keeps obs (db_history_last u f).
Proof. by intros w. Qed.

Lemma keeps_db_logs_last47 u f : keeps obs (db_logs_last47 u f).
Proof. by intros w. Qed.

Lemma keeps_db_get_users : keeps obs db_get_users.
Proof. by intros w. Qed.

Lemma keeps_db_get_live_status u : keeps obs (db_get_live_status u).
Proof. by intros w. Qed.

Lemma keeps_db_set_history u f ts e :
  ignores_history obs → ignores_writes is_archive_write obs →
  keeps obs (db_set_history u f ts e).
Proof.
  intros Hh Hw w. unfold db_set_history. simpl.
  rewrite Hw by done. apply Hh.
Qed.

Lemma keeps_db_set_prediction u f p :
  ignores_writes is_prediction_write obs → keeps obs (db_set_prediction u f p).
Proof. intros Hw w. by apply Hw. Qed.

Lemma keeps_db_set_probe_prediction u f p v :
  ignores_writes is_probe_write obs → keeps obs (db_set_probe_prediction u f p v).
Proof.
  intros Hw. destruct v as [r|]; [|apply keeps_raise].
  intros w. by apply Hw.
Qed.

End keeps.

Section keeps_app.
Context `{Externals} {B : Type} (obs : world → B).

Lemma keeps_solar_days lat lon days :
  ignores_requests obs → keeps obs (solar_days lat lon days).
Proof.
  intros Hr. induction days as [|i days IH]; simpl.
  - apply keeps_ret.
  - apply keeps_bind; [intros w; apply Hr|].
    intros [val|]; [|done].
    destruct (py_ne val (-999.0)); [apply keeps_ret | done].
Qed.

Lemma keeps_get_latest_solar lat lon :
  ignores_requests obs → keeps obs (get_latest_solar lat lon).
Proof.
  intros Hr. unfold get_latest_solar.
  destruct (negb (py_truthy lat) || negb (py_truthy lon)); [apply keeps_ret|].
  destruct lat, lon; try apply keeps_ret. by apply keeps_solar_days.
Qed.

Lemma keeps_archive_live u f ts e :
  ignores_lines obs → ignores_history obs → ignores_writes is_archive_write obs →
  keeps obs (archive_live u f ts e).
Proof.
  intros Hl Hh Hw. unfold archive_live.
  apply keeps_bind; [apply keeps_db_history_last|].
  intros [last_ts|].
  - destruct (ts - last_ts <? 1500000)%Z; [by apply keeps_print|].
    apply keeps_bind; [by apply keeps_db_set_history | intros _; by apply keeps_print].
  - apply keeps_bind; [by apply keeps_db_set_history | intros _; by apply keeps_print].
Qed.

Lemma keeps_predict_and_write u f features :
  ignores_lines obs → ignores_writes is_prediction_write obs →
  keeps obs (predict_and_write u f features).
Proof.
  intros Hl Hw. unfold predict_and_write.
  apply keeps_bind; [apply keeps_lift | intros X].
  apply keeps_bind; [apply keeps_lift | intros recon].
  apply keeps_bind; [apply keeps_lift | intros ratio].
  apply keeps_bind; [apply keeps_time_ms | intros now].
  apply keeps_bind; [by apply keeps_db_set_prediction | intros _].
  apply keeps_bind; [by apply keeps_print | intros _].
  apply keeps_ret.
Qed.

Lemma keeps_score_window u f env records :
  ignores_lines obs → ignores_requests obs → ignores_writes is_prediction_write obs →
  keeps obs (score_window u f env records).
Proof.
  intros Hl Hr Hw. unfold score_window.
  apply keeps_bind; [apply keeps_lift | intros dews].
  destruct (coordinates env) as [lat lon].
  apply keeps_bind; [by apply keeps_get_latest_solar | intros solar].
  apply keeps_bind; [apply keeps_lift | intros features].
  by apply keeps_predict_and_write.
Qed.

Lemma keeps_evaluate_window u f env temp hum :
  ignores_lines obs → ignores_requests obs → ignores_writes is_prediction_write obs →
  keeps obs (evaluate_window u f env temp hum).
Proof.
  intros Hl Hr Hw. unfold evaluate_window.
  apply keeps_bind; [apply keeps_db_logs_last47 | intros logs].
  destruct logs as [|entry logs].
  { apply keeps_bind; [by apply keeps_print | intros _; apply keeps_ret]. }
  apply keeps_bind; [apply keeps_lift | intros records].
  apply keeps_bind; [apply keeps_lift | intros t].
  apply keeps_bind; [apply keeps_lift | intros h].
  destruct (length (records ++ [(t, h)]) <? 48)%nat.
  - apply keeps_bind; [by apply keeps_print | intros _; apply keeps_ret].
  - by apply keeps_score_window.
Qed.

Lemma keeps_process_field u f env :
  ignores_lines obs → ignores_requests obs → ignores_history obs →
  ignores_writes is_archive_write obs → ignores_writes is_prediction_write obs →
  keeps obs (process_field u f env).
Proof.
  intros Hl Hr Hh Hwa Hwp. unfold process_field.
  destruct (env !! "temp") as [temp|]; [|apply keeps_ret].
  destruct (env !! "hum") as [hum|]; [|apply keeps_ret].
  apply keeps_bind; [apply keeps_time_ms | intros ts].
  apply keeps_bind; [apply keeps_lift | intros t].
  apply keeps_bind; [apply keeps_lift | intros h].
  apply keeps_bind; [by apply keeps_archive_live | intros _].
  by apply keeps_evaluate_window.
Qed.

Lemma keeps_run_probe u f farm_risk probe :
  ignores_lines obs → ignores_writes is_probe_write obs →
  keeps obs (run_probe u f farm_risk probe).
Proof.
  intros Hl Hw. destruct probe as [probe_id [[raw|]|]]; simpl; try apply keeps_ret.
  apply keeps_try_except.
  - apply keeps_bind; [apply keeps_lift | intros m].
    apply keeps_bind; [by apply keeps_db_set_probe_prediction | intros _].
    destruct (grid_risk farm_risk m); [by apply keeps_print | apply keeps_ret].
  - intros []; by apply keeps_print.
Qed.

Lemma keeps_run_field u field :
  ignores_lines obs → ignores_requests obs → ignores_history obs →
  (∀ x w, obs (add_write x w) = obs w) →
  keeps obs (run_field u field).
Proof.
  intros Hl Hr Hh Hw. destruct field as [field_id fd]. unfold run_field.
  apply keeps_bind; [by apply keeps_print | intros _].
  destruct fd as [[env|] probes|]; try by apply keeps_print.
  apply keeps_bind; [by apply keeps_print | intros _].
  apply keeps_bind.
  - apply keeps_process_field; try done; intros ???; apply Hw.
  - intros farm_risk. apply keeps_for_each. intros probe.
    apply keeps_run_probe; [done|]. intros ???; apply Hw.
Qed.

Lemma keeps_run_user u :
  ignores_lines obs → ignores_requests obs → ignores_history obs →
  (∀ x w, obs (add_write x w) = obs w) →
  keeps obs (run_user u).
Proof.
  intros Hl Hr Hh Hw. unfold run_user.
  apply keeps_bind; [by apply keeps_print | intros _].
  apply keeps_bind; [apply keeps_db_get_live_status | intros ls].
  destruct ls; [by apply keeps_print|].
  apply keeps_for_each. intros field. by apply keeps_run_field.
Qed.

End keeps_app.

(** ** The archive *)

Lemma max_key_spec (l : list Z) :
  match foldr (λ k acc, Some (match acc with Some m => Z.max k m | None => k end)) None l with
  | None => l = []
  | Some T => T ∈ l ∧ ∀ k, k ∈ l → (k ≤ T)%Z
  end.
Proof.
  induction l as [|x l IH]; simpl; [done|].
  destruct (foldr _ None l) as [m|].
  - destruct IH as [Hin Hmax]. split.
    + destruct (Z.max_spec x m) as [[_ ->]|[_ ->]]; [by apply list_elem_of_further | apply list_elem_of_here].
    + intros k Hk. apply elem_of_cons in Hk as [->|Hk]; [lia|].
      specialize (Hmax k Hk). lia.
  - subst l. split; [apply list_elem_of_here|].
    intros k Hk. apply list_elem_of_singleton in Hk. lia.
Qed.

Lemma elem_of_keys (h : gmap Z data_entry) (k : Z) :
  k ∈ (map_to_list h).*1 ↔ is_Some (h !! k).
Proof.
  rewrite list_elem_of_fmap. split.
  - intros [[k' e] [-> Hin]]. apply elem_of_map_to_list in Hin. by exists e.
  - intros [e He]. exists (k, e). split; [done|]. by apply elem_of_map_to_list.
Qed.

Lemma last_key_none (h : gmap Z data_entry) : last_key h = None → h = ∅.
Proof.
  unfold last_key. intros E.
  pose proof (max_key_spec (map_to_list h).*1) as Hs. rewrite E in Hs.
  apply fmap_nil_inv in Hs. by apply map_to_list_empty_iff.
Qed.

Lemma last_key_some (h : gmap Z data_entry) (T : Z) :
  last_key h = Some T → is_Some (h !! T) ∧ ∀ k, is_Some (h !! k) → (k ≤ T)%Z.
Proof.
  unfold last_key. intros E.
  pose proof (max_key_spec (map_to_list h).*1) as Hs. rewrite E in Hs.
  destruct Hs as [Hin Hmax]. split.
  - by apply elem_of_keys.
  - intros k Hk. apply Hmax. by apply elem_of_keys.
Qed.

(** A key later than the last one is not in the archive. *)
Lemma last_key_fresh (h : gmap Z data_entry) (T ts : Z) :
  last_key h = Some T → (T < ts)%Z → h !! ts = None.
Proof.
  intros E Hlt. destruct (last_key_some h T E) as [_ Hmax].
  destruct (h !! ts) as [e|] eqn:Ets; [|done].
  specialize (Hmax ts (mk_is_Some _ _ Ets)). lia.
Qed.

Lemma archive_live_skip u f ts e w T :
  last_key (history_of w u f) = Some T → (ts - T < 1500000)%Z →
  archive_live u f ts e w = (Ok (), add_line (SkippingArchive f (ts - T)) w).
Proof.
  intros E Hd. unfold archive_live, bind, db_history_last. rewrite E.
  by rewrite (proj2 (Z.ltb_lt _ _) Hd).
Qed.

Lemma archive_live_write u f ts e w T :
  last_key (history_of w u f) = Some T → (1500000 ≤ ts - T)%Z →
  archive_live u f ts e w = (Ok (), archived u f ts e w).
Proof.
  intros E Hd. unfold archive_live, bind, db_history_last. rewrite E.
  by rewrite (proj2 (Z.ltb_ge _ _) Hd).
Qed.

Lemma archive_live_first u f ts e w :
  last_key (history_of w u f) = None →
  archive_live u f ts e w = (Ok (), archived u f ts e w).
Proof.
  intros E. unfold archive_live, bind, db_history_last. by rewrite E.
Qed.

Lemma history_of_archived u f ts e w :
  history_of (archived u f ts e w) u f = <[ts := e]> (history_of w u f).
Proof. unfold history_of at 1. simpl. by rewrite lookup_insert_eq. Qed.

Lemma filter_snoc_true {A} (P : A → bool) (l : list A) (x : A) :
  P x = true → filter (λ y, P y = true) (l ++ [x]) = filter (λ y, P y = true) l ++ [x].
Proof. intros Hx. rewrite filter_app, filter_cons_True by done. done. Qed.

Lemma filter_snoc_false {A} (P : A → bool) (l : list A) (x : A) :
  P x = false → filter (λ y, P y = true) (l ++ [x]) = filter (λ y, P y = true) l.
Proof.
  intros Hx. rewrite filter_app, filter_cons_False by congruence.
  by rewrite filter_nil, app_nil_r.
Qed.

Lemma archive_writes_archived u f ts e w :
  archive_writes (archived u f ts e w) = archive_writes w ++ [SetHistory u f ts e].
Proof. unfold archive_writes. simpl. by apply filter_snoc_true. Qed.

(** Observations that the stages of [process_field] leave alone. *)
Lemma history_ignores_lines : ignores_lines history.
Proof. by intros ??. Qed.
Lemma history_ignores_requests : ignores_requests history.
Proof. by intros ??. Qed.
Lemma history_ignores_writes kind : ignores_writes kind history.
Proof. by intros ???. Qed.

Lemma writes_ignores_lines : ignores_lines writes.
Proof. by intros ??. Qed.
Lemma writes_ignores_requests : ignores_requests writes.
Proof. by intros ??. Qed.
Lemma writes_ignores_history : ignores_history writes.
Proof. by intros ??. Qed.

Lemma archive_writes_ignores_lines : ignores_lines archive_writes.
Proof. by intros ??. Qed.
Lemma archive_writes_ignores_requests : ignores_requests archive_writes.
Proof. by intros ??. Qed.
Lemma archive_writes_ignores_predictions :
  ignores_writes is_prediction_write archive_writes.
Proof.
  intros x w Hx. unfold archive_writes. simpl.
  apply filter_snoc_false. by destruct x.
Qed.

Lemma prediction_writes_ignores_lines : ignores_lines prediction_writes.
Proof. by intros ??. Qed.
Lemma prediction_writes_ignores_requests : ignores_requests prediction_writes.
Proof. by intros ??. Qed.
Lemma prediction_writes_ignores_history : ignores_history prediction_writes.
Proof. by intros ??. Qed.
Lemma prediction_writes_ignores_archive :
  ignores_writes is_archive_write prediction_writes.
Proof.
  intros x w Hx. unfold prediction_writes. simpl.
  apply filter_snoc_false. by destruct x.
Qed.
Lemma prediction_writes_ignores_probes :
  ignores_writes is_probe_write prediction_writes.
Proof.
  intros x w Hx. unfold prediction_writes. simpl.
  apply filter_snoc_false. by destruct x.
Qed.

Lemma probe_writes_ignores_lines : ignores_lines probe_writes.
Proof. by intros ??. Qed.
Lemma probe_writes_ignores_requests : ignores_requests probe_writes.
Proof. by intros ??. Qed.
Lemma probe_writes_ignores_history : ignores_history probe_writes.
Proof. by intros ??. Qed.
Lemma probe_writes_ignores_archive :
  ignores_writes is_archive_write probe_writes.
Proof.
  intros x w Hx. unfold probe_writes. simpl.
  apply filter_snoc_false. by destruct x.
Qed.
Lemma probe_writes_ignores_predictions :
  ignores_writes is_prediction_write probe_writes.
Proof.
  intros x w Hx. unfold probe_writes. simpl.
  apply filter_snoc_false. by destruct x.
Qed.

Section field_evaluation.
Context `{Externals}.

Lemma process_field_valid u f env t h w :
  env !! "temp" = Some (JNum t) → env !! "hum" = Some (JNum h) →
  process_field u f env w =
  bind (archive_live u f (clock w)
          {| temperature := t; humidity := h; timestamp := clock w |})
       (λ _, evaluate_window u f env (JNum t) (JNum h)) w.
Proof. intros Ht Hh. unfold process_field. by rewrite Ht, Hh. Qed.

Lemma process_field_missing u f env w :
  env !! "temp" = None ∨ env !! "hum" = None →
  process_field u f env w = (Ok None, w).
Proof.
  intros [E|E]; unfold process_field; rewrite E; [done|].
  by destruct (env !! "temp").
Qed.

Lemma evaluate_window_keeps_history u f env temp hum w :
  history (evaluate_window u f env temp hum w).2 = history w.
Proof.
  apply (keeps_evaluate_window history);
    [apply history_ignores_lines | apply history_ignores_requests | apply history_ignores_writes].
Qed.

Lemma evaluate_window_keeps_archive_writes u f env temp hum w :
  archive_writes (evaluate_window u f env temp hum w).2 = archive_writes w.
Proof.
  apply (keeps_evaluate_window archive_writes);
    [apply archive_writes_ignores_lines | apply archive_writes_ignores_requests
    | apply archive_writes_ignores_predictions].
Qed.

End field_evaluation.

Lemma last_key_most_recent (h : gmap Z data_entry) (T : Z) :
  most_recent h T → last_key h = Some T.
Proof.
  intros [[e He] Hmax]. destruct (last_key h) as [T'|] eqn:E.
  - destruct (last_key_some h T' E) as [HT' Hmax'].
    f_equal. apply Z.le_antisymm; [by apply Hmax | apply Hmax'; by exists e].
  - apply last_key_none in E. subst h. by rewrite lookup_empty in He.
Qed.

Lemma last_key_empty : last_key ∅ = None.
Proof. unfold last_key. by rewrite map_to_list_empty. Qed.

Section archiving.
Context `{Externals}.

Lemma process_field_after_archive u f env t h w w1 :
  env !! "temp" = Some (JNum t) → env !! "hum" = Some (JNum h) →
  archive_live u f (clock w)
    {| temperature := t; humidity := h; timestamp := clock w |} w = (Ok (), w1) →
  process_field u f env w = evaluate_window u f env (JNum t) (JNum h) w1.
Proof.
  intros Ht Hh Ha. rewrite (process_field_valid u f env t h w Ht Hh).
  by rewrite (bind_ok _ _ _ _ _ Ha).
Qed.

(** C5.  A field evaluation whose live sample holds a temperature and
    a humidity, read at time [now], with [hist] the field's archive:
    - when the most recent archive entry is at [T] and [now = T + d]
      with [d < 1500000], nothing is archived (the archive and the list
      of archive writes are unchanged) and the evaluation goes on with
      the window and scoring stage;
    - when [1500000 <= d], the key [now] is new, exactly one entry is
      written, under the key [now], and the evaluation goes on;
    - when the archive is empty, the live sample becomes its first
      entry, and the evaluation goes on. *)
Theorem archive_throttle (u f : string) (env : gmap string jvalue) (t h : Q) (w : world) :
  env !! "temp" = Some (JNum t) → env !! "hum" = Some (JNum h) →
  let now := clock w in
  let hist := history_of w u f in
  let entry := {| temperature := t; humidity := h; timestamp := now |} in
  let after := (process_field u f env w).2 in
  (∀ T d, most_recent hist T → now = (T + d)%Z → (d < 1500000)%Z →
     history after = history w
     ∧ archive_writes after = archive_writes w
     ∧ process_field u f env w =
       evaluate_window u f env (JNum t) (JNum h) (add_line (SkippingArchive f d) w))
  ∧ (∀ T d, most_recent hist T → now = (T + d)%Z → (1500000 ≤ d)%Z →
     hist !! now = None
     ∧ history after = <[(u, f) := <[now := entry]> hist]> (history w)
     ∧ archive_writes after = archive_writes w ++ [SetHistory u f now entry]
     ∧ process_field u f env w =
       evaluate_window u f env (JNum t) (JNum h) (archived u f now entry w))
  ∧ (hist = ∅ →
     history after = <[(u, f) := {[now := entry]}]> (history w)
     ∧ archive_writes after = archive_writes w ++ [SetHistory u f now entry]
     ∧ process_field u f env w =
       evaluate_window u f env (JNum t) (JNum h) (archived u f now entry w)).
Proof.
  intros Ht Hh now hist entry after. subst after. split; [|split].
  - intros T d Hrec Hnow Hd. apply last_key_most_recent in Hrec.
    assert (Hgap : (now - T < 1500000)%Z) by lia.
    rewrite (process_field_after_archive u f env t h w _ Ht Hh
               (archive_live_skip u f now entry w T Hrec Hgap)).
    rewrite evaluate_window_keeps_history, evaluate_window_keeps_archive_writes.
    replace (now - T)%Z with d by lia. done.
  - intros T d Hrec Hnow Hd. apply last_key_most_recent in Hrec.
    assert (Hgap : (1500000 ≤ now - T)%Z) by lia.
    rewrite (process_field_after_archive u f env t h w _ Ht Hh
               (archive_live_write u f now entry w T Hrec Hgap)).
    rewrite evaluate_window_keeps_history, evaluate_window_keeps_archive_writes.
    split; [apply (last_key_fresh hist T now Hrec); lia|].
    split; [done|]. split; [apply archive_writes_archived | done].
  - intros Hempty.
    assert (E : last_key (history_of w u f) = None)
      by (fold hist; rewrite Hempty; apply last_key_empty).
    rewrite (process_field_after_archive u f env t h w _ Ht Hh
               (archive_live_first u f now entry w E)).
    rewrite evaluate_window_keeps_history, evaluate_window_keeps_archive_writes.
    split; [simpl; fold hist; by rewrite Hempty|].
    split; [apply archive_writes_archived | done].
Qed.

End archiving.

(** ** The window gate and scoring *)

Lemma collect_records_numeric (logs : list log_entry) :
  logs_numeric logs →
  ∃ records, collect_records logs = Ok records
             ∧ length records = length (filter (λ entry, has_both entry = true) logs)
             ∧ (Forall log_dew_defined logs → Forall (λ th, dew_defined th.1) records).
Proof.
  induction 1 as [|entry logs [Ht Hh] _ (records & IH & Hlen & Hdew)].
  { exists []. by repeat split. }
  assert (Hskip : has_both entry = false → collect_records (entry :: logs) = Ok records).
  { unfold has_both. simpl.
    destruct (log_temp entry) as [temp|]; [|done].
    by destruct (log_hum entry). }
  destruct (has_both entry) eqn:Eboth.
  - unfold has_both in Eboth.
    destruct (log_temp entry) as [[t|?]|] eqn:Et; simpl in Ht; try done.
    destruct (log_hum entry) as [[h|?]|] eqn:Eh; simpl in Hh; try done.
    exists ((t, h) :: records). split; [simpl; by rewrite Et, Eh, IH|].
    rewrite filter_cons_True by (unfold has_both; by rewrite Et, Eh).
    split; [simpl; lia|].
    intros Hall. apply Forall_cons in Hall as [Hd Hall].
    unfold log_dew_defined in Hd. rewrite Et in Hd.
    apply Forall_cons. split; [done | by apply Hdew].
  - exists records. split; [by apply Hskip|].
    rewrite filter_cons_False by congruence.
    split; [done|].
    intros Hall. apply Forall_cons in Hall as [_ Hall]. by apply Hdew.
Qed.

Section scoring.
Context `{Externals}.

Lemma solar_days_returns lat lon days w :
  ∃ v, (solar_days lat lon days w).1 = Ok v.
Proof.
  revert w. induction days as [|i days IH]; intros w; simpl.
  - by exists 5.0.
  - unfold bind, requests_get. destruct (nasa_power lat lon i) as [val|]; [|apply IH].
    destruct (py_ne val (-999.0)); [by exists val | apply IH].
Qed.

Lemma get_latest_solar_returns lat lon w :
  ∃ v w', get_latest_solar lat lon w = (Ok v, w') ∧ writes w' = writes w.
Proof.
  pose proof (keeps_get_latest_solar writes lat lon writes_ignores_requests w) as Hw.
  assert (∃ v, (get_latest_solar lat lon w).1 = Ok v) as [v Hv].
  { unfold get_latest_solar.
    destruct (negb (py_truthy lat) || negb (py_truthy lon)); [by exists 0.0|].
    destruct lat, lon; try by exists 0.0. apply solar_days_returns. }
  destruct (get_latest_solar lat lon w) as [r w']. simpl in *. subst r.
  by exists v, w'.
Qed.

(** Scoring either writes one Prediction Record and returns its risk,
    or raises before anything is written. *)
Lemma score_window_outcome u f env records w :
  (∃ p w', score_window u f env records w = (Ok (Some (pred_risk p)), w')
           ∧ writes w' = writes w ++ [SetPrediction u f p]
           ∧ pred_risk p = classify (anomaly_score p))
  ∨ (∃ e w', score_window u f env records w = (Raise e, w') ∧ writes w' = writes w).
Proof.
  unfold score_window, predict_and_write, bind, lift.
  destruct (rmap_list _ _) as [dews|e]; [|right; by exists e, w].
  destruct (coordinates env) as [lat lon].
  destruct (get_latest_solar_returns (Some lat) (Some lon) w) as (solar & w1 & -> & Hw1).
  destruct (build_features _ _ _ _ _) as [features|e]; [|right; by exists e, w1].
  destruct (scaler_transform features) as [X|e]; [|right; by exists e, w1].
  destruct (autoencoder_predict X) as [recon|e]; [|right; by exists e, w1].
  destruct (float_div _ _) as [ratio|e]; [|right; by exists e, w1].
  left. eexists {| pred_risk := _ |}, _. split; [reflexivity|].
  simpl. by rewrite Hw1.
Qed.




Lemma evaluate_window_short u f env t h w :
  logs_numeric (last47 w u f) → (window_size w u f < 48)%nat →
  ∃ w', evaluate_window u f env (JNum t) (JNum h) w = (Ok None, w')
        ∧ writes w' = writes w.
Proof.
  intros Hnum Hsize. unfold evaluate_window, bind, db_logs_last47.
  fold (last47 w u f). unfold window_size in Hsize.
  destruct (collect_records_numeric _ Hnum) as (records & Hrec & Hlen & _).
  destruct (last47 w u f) as [|entry logs] eqn:El.
  { by eexists. }
  unfold lift. rewrite Hrec. simpl.
  assert (E : (length (records ++ [(t, h)]) <? 48)%nat = true).
  { apply Nat.ltb_lt. rewrite length_app. simpl. lia. }
  rewrite E. by eexists.
Qed.

Lemma evaluate_window_full u f env t h w :
  logs_numeric (last47 w u f) → (48 ≤ window_size w u f)%nat →
  ∃ records, evaluate_window u f env (JNum t) (JNum h) w = score_window u f env records w
             ∧ length records = window_size w u f
             ∧ (Forall log_dew_defined (last47 w u f) → dew_defined t →
                Forall (λ th, dew_defined th.1) records).
Proof.
  intros Hnum Hsize. unfold evaluate_window, bind, db_logs_last47.
  fold (last47 w u f). unfold window_size in *.
  destruct (collect_records_numeric _ Hnum) as (records & Hrec & Hlen & Hdew).
  destruct (last47 w u f) as [|entry logs] eqn:El.
  { simpl in Hsize. lia. }
  unfold lift. rewrite Hrec. simpl.
  assert (E : (length (records ++ [(t, h)]) <? 48)%nat = false).
  { apply Nat.ltb_ge. rewrite length_app. simpl. lia. }
  rewrite E. exists (records ++ [(t, h)]). split; [done|].
  split; [rewrite length_app; simpl; lia|].
  intros Hall Ht. apply Forall_app. split; [by apply Hdew|].
  by apply Forall_singleton.
Qed.

End scoring.


Lemma prediction_writes_same w w' :
  writes w' = writes w → prediction_writes w' = prediction_writes w.
Proof. unfold prediction_writes. by intros ->. Qed.

Lemma prediction_writes_snoc w w' u f p :
  writes w' = writes w ++ [SetPrediction u f p] →
  prediction_writes w' = prediction_writes w ++ [SetPrediction u f p].
Proof. unfold prediction_writes. intros ->. by apply filter_snoc_true. Qed.

Section gate.
Context `{Externals}.

Lemma archive_live_returns u f ts e w :
  ∃ w1, archive_live u f ts e w = (Ok (), w1)
        ∧ historical_logs w1 = historical_logs w
        ∧ prediction_writes w1 = prediction_writes w.
Proof.
  destruct (last_key (history_of w u f)) as [T|] eqn:E.
  - destruct (Z.lt_ge_cases (ts - T) 1500000) as [Hd|Hd].
    + rewrite (archive_live_skip u f ts e w T E Hd). by eexists.
    + rewrite (archive_live_write u f ts e w T E Hd). eexists. split; [done|].
      split; [done|]. unfold prediction_writes. simpl. by apply filter_snoc_false.
  - rewrite (archive_live_first u f ts e w E). eexists. split; [done|].
    split; [done|]. unfold prediction_writes. simpl. by apply filter_snoc_false.
Qed.

(** The evaluation of a well-formed sample, after the archive step. *)
Lemma process_field_window u f env t h w :
  env !! "temp" = Some (JNum t) → env !! "hum" = Some (JNum h) →
  ∃ w1, process_field u f env w = evaluate_window u f env (JNum t) (JNum h) w1
        ∧ last47 w1 u f = last47 w u f
        ∧ window_size w1 u f = window_size w u f
        ∧ prediction_writes w1 = prediction_writes w.
Proof.
  intros Ht Hh.
  destruct (archive_live_returns u f (clock w)
              {| temperature := t; humidity := h; timestamp := clock w |} w)
    as (w1 & Ha & Hlogs & Hp).
  exists w1. rewrite (process_field_after_archive u f env t h w w1 Ht Hh Ha).
  unfold window_size, last47. by rewrite Hlogs.
Qed.

Lemma process_field_short u f env t h w :
  env !! "temp" = Some (JNum t) → env !! "hum" = Some (JNum h) →
  logs_numeric (last47 w u f) → (window_size w u f < 48)%nat →
  ∃ w', process_field u f env w = (Ok None, w')
        ∧ prediction_writes w' = prediction_writes w.
Proof.
  intros Ht Hh Hnum Hsize.
  destruct (process_field_window u f env t h w Ht Hh) as (w1 & -> & Hl & Hs & Hp).
  rewrite <- Hl in Hnum. rewrite <- Hs in Hsize.
  destruct (evaluate_window_short u f env t h w1 Hnum Hsize) as (w' & -> & Hw).
  exists w'. split; [done|]. rewrite <- Hp. by apply prediction_writes_same.
Qed.

Lemma process_field_full u f env t h w :
  env !! "temp" = Some (JNum t) → env !! "hum" = Some (JNum h) →
  logs_numeric (last47 w u f) → (48 ≤ window_size w u f)%nat →
  (∃ p w', process_field u f env w = (Ok (Some (pred_risk p)), w')
           ∧ prediction_writes w' = prediction_writes w ++ [SetPrediction u f p]
           ∧ pred_risk p = classify (anomaly_score p))
  ∨ (∃ e w', process_field u f env w = (Raise e, w')
             ∧ prediction_writes w' = prediction_writes w).
Proof.
  intros Ht Hh Hnum Hsize.
  destruct (process_field_window u f env t h w Ht Hh) as (w1 & -> & Hl & Hs & Hp).
  rewrite <- Hl in Hnum. rewrite <- Hs in Hsize.
  destruct (evaluate_window_full u f env t h w1 Hnum Hsize) as (records & -> & _).
  rewrite <- Hp.
  destruct (score_window_outcome u f env records w1)
    as [(p & w' & E & Hw & Hr)|(e & w' & E & Hw)]; [left | right].
  - exists p, w'. split; [done|]. split; [by apply prediction_writes_snoc | done].
  - exists e, w'. split; [done|]. by apply prediction_writes_same.
Qed.



End gate.

(** ** Probes of a field whose scoring was skipped *)

Section probes.
Context `{Externals}.

Lemma run_probe_none u f probe w :
  ∃ w', run_probe u f None probe w = (Ok (), w') ∧ writes w' = writes w.
Proof.
  destruct probe as [probe_id [[[q|s]|]|]]; simpl.
  - (* a number: [grid_risk None] is [None], which [set] refuses *)
    unfold try_except, bind, lift. simpl. by eexists.
  - (* a text: [float] raises *)
    unfold try_except, bind, lift. simpl. by eexists.
  - by eexists.
  - by eexists.
Qed.

Lemma run_probes_none u f probes w :
  ∃ w', for_each (run_probe u f None) probes w = (Ok (), w') ∧ writes w' = writes w.
Proof.
  revert w. induction probes as [|probe probes IH]; intros w; simpl.
  - by eexists.
  - destruct (run_probe_none u f probe w) as (w1 & E1 & Hw1).
    rewrite (bind_ok _ _ _ _ _ E1).
    destruct (IH w1) as (w2 & E2 & Hw2). exists w2. split; [done | congruence].
Qed.

Lemma process_field_keeps_probe_writes u f env w :
  probe_writes (process_field u f env w).2 = probe_writes w.
Proof.
  apply (keeps_process_field probe_writes);
    [apply probe_writes_ignores_lines | apply probe_writes_ignores_requests
    | apply probe_writes_ignores_history | apply probe_writes_ignores_archive
    | apply probe_writes_ignores_predictions].
Qed.

(** C6.  When the evaluation of a field returns [None] (scoring was
    skipped, no Prediction Record written), the loop over the probes of
    that field ends normally and has sent no write at all: the writes
    after the field are those after [process_field], and none of the
    writes of the cycle for this field is a probe-level prediction. *)
Theorem skipped_scoring_writes_no_probe (u f : string) (env : gmap string jvalue)
    (probes : list (string * probe_data)) (w w1 : world) :
  process_field u f env (add_line (ProcessingEnv f) (add_line (CheckingField f) w))
    = (Ok None, w1) →
  ∃ w2, run_field u (f, FieldDict (Some env) probes) w = (Ok (), w2)
        ∧ writes w2 = writes w1
        ∧ probe_writes w2 = probe_writes w.
Proof.
  intros E.
  destruct (run_probes_none u f probes w1) as (w2 & E2 & Hw2).
  exists w2. split; [|split].
  - unfold run_field. unfold bind at 1. simpl. unfold bind at 1. simpl.
    by rewrite (bind_ok _ _ _ _ _ E).
  - done.
  - unfold probe_writes at 1. rewrite Hw2. fold (probe_writes w1).
    pose proof (process_field_keeps_probe_writes u f env
                  (add_line (ProcessingEnv f) (add_line (CheckingField f) w))) as Hp.
    rewrite E in Hp. done.
Qed.

End probes.

(** ** The fleet pass *)

Lemma live_status_ignores_lines : ignores_lines live_status.
Proof. by intros ??. Qed.
Lemma live_status_ignores_requests : ignores_requests live_status.
Proof. by intros ??. Qed.
Lemma live_status_ignores_history : ignores_history live_status.
Proof. by intros ??. Qed.

Section pass.
Context `{Externals}.

Lemma run_users_keep_live_status us w :
  live_status (for_each run_user us w).2 = live_status w.
Proof.
  apply (keeps_for_each live_status). intros u.
  apply keeps_run_user;
    [apply live_status_ignores_lines | apply live_status_ignores_requests
    | apply live_status_ignores_history | done].
Qed.

Lemma run_field_raise u f env probes w e w' :
  process_field u f env (add_line (ProcessingEnv f) (add_line (CheckingField f) w))
    = (Raise e, w') →
  run_field u (f, FieldDict (Some env) probes) w = (Raise e, w').
Proof.
  intros E. unfold run_field. unfold bind at 1. simpl. unfold bind at 1. simpl.
  by rewrite (bind_raise _ _ _ _ _ E).
Qed.

Lemma run_user_fields u fields w :
  live_status w !! u = Some fields → fields ≠ [] →
  run_user u w = for_each (run_field u) fields (add_line (CheckingUser u) w).
Proof.
  intros E Hne. unfold run_user. unfold bind at 1. simpl.
  unfold bind at 1, db_get_live_status. simpl. rewrite E. simpl.
  by destruct fields.
Qed.

(** C1, as the program has it.  The only handler is the one around the
    whole pass.  When the evaluation of a field raises [e], with the
    users before its user and the fields before it evaluated normally,
    the pass ends there: it returns normally, and its final world is
    the world at the raise plus the "Global Loop Error" line, so that
    no later field and no later user is looked at in that pass; the
    loop then sleeps and goes on with the next pass. *)
Theorem fleet_pass_stops_at_failure (w w1 w2 w3 : world) (us1 us2 : list string)
    (u f : string) (fs1 fs2 : list (string * field_data))
    (env : gmap string jvalue) (probes : list (string * probe_data)) (e : exn) :
  users w = us1 ++ u :: us2 →
  live_status w !! u = Some (fs1 ++ (f, FieldDict (Some env) probes) :: fs2) →
  for_each run_user us1
    (add_line (FoundUsers (length (users w))) (add_line FetchingUsers w)) = (Ok (), w1) →
  for_each (run_field u) fs1 (add_line (CheckingUser u) w1) = (Ok (), w2) →
  process_field u f env (add_line (ProcessingEnv f) (add_line (CheckingField f) w2))
    = (Raise e, w3) →
  fleet_pass w = (Ok (), add_line (GlobalLoopError e) w3)
  ∧ ∀ n, iterations (S n) w =
         iterations n (set_clock (clock w3 + 1800 * 1000)
                         (add_line Sleeping (add_line (GlobalLoopError e) w3))).
Proof.
  intros Hus Hls Hus1 Hfs1 Hraise.
  assert (Hpass : fleet_pass w = (Ok (), add_line (GlobalLoopError e) w3)).
  { unfold fleet_pass.
    rewrite (try_except_raise _ _ w e w3); [done|].
    unfold bind at 1. simpl. unfold bind at 1, db_get_users. simpl.
    unfold bind at 1. simpl. rewrite Hus at 1.
    rewrite (for_each_app_ok _ _ _ _ _ Hus1). simpl.
    apply bind_raise.
    assert (Hls1 : live_status w1 !! u
                   = Some (fs1 ++ (f, FieldDict (Some env) probes) :: fs2)).
    { pose proof (run_users_keep_live_status us1
          (add_line (FoundUsers (length (users w))) (add_line FetchingUsers w))) as Hk.
      rewrite Hus1 in Hk. simpl in Hk. by rewrite Hk. }
    rewrite (run_user_fields u _ w1 Hls1) by (by destruct fs1).
    rewrite (for_each_app_ok _ _ _ _ _ Hfs1).
    apply for_each_cons_raise. by apply run_field_raise. }
  split; [done|].
  intros n. simpl. by rewrite (bind_ok _ _ _ _ _ Hpass).
Qed.

End pass.

(** ** Solar irradiance *)

Lemma py_ne_true x y : py_ne x y = true ↔ ¬ x == y.
Proof.
  unfold py_ne. rewrite negb_true_iff. split.
  - apply Qeq_bool_neq.
  - intros Hne. destruct (Qeq_bool x y) eqn:E; [|done].
    apply Qeq_bool_iff in E. done.
Qed.

Lemma requested_snoc lat lon days i w :
  requested lat lon (days ++ [i]) w = add_request (lat, lon, i) (requested lat lon days w).
Proof. unfold requested. by rewrite foldl_app. Qed.

Lemma requested_cons lat lon days i w :
  requested lat lon (i :: days) w = requested lat lon days (add_request (lat, lon, i) w).
Proof. done. Qed.


Section solar.
Context `{Externals}.











End solar.

(** ** The claims on the pure functions *)

(** C3.  [grid_risk] is a total function on the four farm risks and
    the three soil categories, where moisture below 30 is DRY, from 30
    and below 60 MODERATE, from 60 WET, and it agrees with the
    transition table on every cell; in particular WARNING at 15.0 is
    WATCH, HIGH at 70.0 is HIGH and NORMAL at 95.0 is NORMAL. *)
Theorem grid_risk_transition_table :
  (∀ soil, soil < 30 → soil_category soil = DRY)
  ∧ (∀ soil, 30 <= soil → soil < 60 → soil_category soil = MODERATE)
  ∧ (∀ soil, 60 <= soil → soil_category soil = WET)
  ∧ (∀ r soil, grid_risk (Some r) soil = Some (transition_table r (soil_category soil)))
  ∧ grid_risk (Some WARNING) 15.0 = Some WATCH
  ∧ grid_risk (Some HIGH) 70.0 = Some HIGH
  ∧ grid_risk (Some NORMAL) 95.0 = Some NORMAL.
Proof.
  split; [apply soil_category_dry|].
  split; [apply soil_category_moderate|].
  split; [apply soil_category_wet|].
  split; [apply grid_risk_table|].
  by repeat split.
Qed.

Lemma grid_risk_transition_table_witness :
  soil_category 45 = MODERATE ∧ grid_risk (Some WATCH) 45 = Some WATCH.
Proof.
  destruct grid_risk_transition_table as (_ & Hmod & _ & Htable & _).
  assert (E : soil_category 45 = MODERATE) by (apply Hmod; lra).
  split; [exact E|]. rewrite Htable, E. reflexivity.
Defined.

(** C10.  [grid_risk] is monotone: at a fixed moisture the probe risk
    does not decrease when the farm risk goes up the scale
    NORMAL < WATCH < WARNING < HIGH, and at a fixed farm risk it does
    not decrease when the soil category goes up DRY < MODERATE < WET
    (nor, therefore, when the moisture value goes up). *)
Theorem grid_risk_monotone :
  (∀ soil r1 r2, risk_le r1 r2 →
     ∃ p1 p2, grid_risk (Some r1) soil = Some p1 ∧ grid_risk (Some r2) soil = Some p2
              ∧ risk_le p1 p2)
  ∧ (∀ r m1 m2, soil_le (soil_category m1) (soil_category m2) →
     ∃ p1 p2, grid_risk (Some r) m1 = Some p1 ∧ grid_risk (Some r) m2 = Some p2
              ∧ risk_le p1 p2)
  ∧ (∀ m1 m2, m1 <= m2 → soil_le (soil_category m1) (soil_category m2)).
Proof.
  split; [|split].
  - intros soil r1 r2 Hr. rewrite !grid_risk_table. eexists _, _.
    split; [done|]. split; [done|].
    apply transition_table_mono; [done | unfold soil_le; lia].
  - intros r m1 m2 Hc. rewrite !grid_risk_table. eexists _, _.
    split; [done|]. split; [done|].
    apply transition_table_mono; [unfold risk_le; lia | done].
  - apply soil_category_mono.
Qed.

Lemma grid_risk_monotone_witness :
  ∃ p1 p2, grid_risk (Some WATCH) 70 = Some p1 ∧ grid_risk (Some WARNING) 70 = Some p2
           ∧ risk_le p1 p2.
Proof.
  apply (proj1 grid_risk_monotone 70 WATCH WARNING).
  unfold risk_le. simpl. lia.
Defined.







(** ** The statements at work on concrete data *)

Lemma throttled_most_recent :
  most_recent (history_of Demo.throttled "u" "f2") 1000.
Proof.
  assert (E : history_of Demo.throttled "u" "f2" = {[ 1000%Z := Demo.entry25 1000 ]})
    by (vm_compute; reflexivity).
  rewrite E. split.
  - rewrite lookup_singleton_eq. by eexists.
  - intros k [e He]. apply lookup_singleton_Some in He as [<- _]. lia.
Qed.

Lemma archive_throttle_witness :
  let w := Demo.throttled in
  history (process_field (H:=Demo.externals) "u" "f2" Demo.sample w).2 = history w
  ∧ archive_writes (process_field (H:=Demo.externals) "u" "f2" Demo.sample w).2
    = archive_writes w.
Proof.
  intros w.
  assert (Ht : Demo.sample !! "temp" = Some (JNum 25)) by (vm_compute; reflexivity).
  assert (Hh : Demo.sample !! "hum" = Some (JNum 50)) by (vm_compute; reflexivity).
  destruct (archive_throttle (H:=Demo.externals) "u" "f2" Demo.sample 25 50 w Ht Hh)
    as (Hskip & _ & _).
  destruct (Hskip 1000%Z 1499999%Z throttled_most_recent) as (Hhist & Hwrites & _).
  - reflexivity.
  - lia.
  - split; [exact Hhist | exact Hwrites].
Defined.

Lemma quiet_logs_numeric : logs_numeric (last47 Demo.quiet "u" "f2").
Proof.
  assert (E : last47 Demo.quiet "u" "f2" = replicate 3 Demo.log25)
    by (vm_compute; reflexivity).
  rewrite E. unfold logs_numeric. apply Forall_replicate. by split.
Qed.




Lemma skipped_scoring_writes_no_probe_witness :
  ∃ w2, run_field (H:=Demo.externals) "u"
          ("f2", FieldDict (Some Demo.sample) [("p", ProbeDict (Some (JNum 70)))]) Demo.quiet
        = (Ok (), w2)
        ∧ probe_writes w2 = probe_writes Demo.quiet.
Proof.
  destruct (skipped_scoring_writes_no_probe (H:=Demo.externals) "u" "f2" Demo.sample
              [("p", ProbeDict (Some (JNum 70)))] Demo.quiet
              (process_field (H:=Demo.externals) "u" "f2" Demo.sample
                 (add_line (ProcessingEnv "f2") (add_line (CheckingField "f2") Demo.quiet))).2)
    as (w2 & Hrun & _ & Hprobe).
  - vm_compute. reflexivity.
  - exists w2. split; [exact Hrun | exact Hprobe].
Defined.

(** C1 as the design document states it fails: in a pass over the two
    fields of [Demo.quiet], the evaluation of "f1" raises (its
    temperature is not a number), the evaluation of "f2" would return
    normally, and yet "f2" is not evaluated in that pass. *)
Lemma fleet_pass_counterexample :
  (process_field (H:=Demo.externals) "u" "f1" Demo.malformed Demo.quiet).1 = Raise ValueError
  ∧ (process_field (H:=Demo.externals) "u" "f2" Demo.sample Demo.quiet).1 = Ok None
  ∧ (fleet_pass (H:=Demo.externals) Demo.quiet).1 = Ok ()
  ∧ evaluated "f1" (fleet_pass (H:=Demo.externals) Demo.quiet).2
  ∧ ¬ evaluated "f2" (fleet_pass (H:=Demo.externals) Demo.quiet).2.
Proof.
  assert (E : stdout (fleet_pass (H:=Demo.externals) Demo.quiet).2 =
              [FetchingUsers; FoundUsers 1; CheckingUser "u"; CheckingField "f1";
               ProcessingEnv "f1"; GlobalLoopError ValueError])
    by (vm_compute; reflexivity).
  split; [vm_compute; reflexivity|]. split; [vm_compute; reflexivity|].
  split; [vm_compute; reflexivity|]. unfold evaluated. rewrite E. split.
  - here_or_further.
  - intros Hin.
    repeat (apply elem_of_cons in Hin as [Hin|Hin]; [discriminate Hin|]).
    by apply elem_of_nil in Hin.
Qed.

Lemma fleet_pass_stops_at_failure_witness :
  fleet_pass (H:=Demo.externals) Demo.quiet =
  (Ok (), add_line (GlobalLoopError ValueError)
            (add_line (ProcessingEnv "f1")
               (add_line (CheckingField "f1")
                  (add_line (CheckingUser "u")
                     (add_line (FoundUsers 1) (add_line FetchingUsers Demo.quiet)))))).
Proof.
  refine (proj1 (fleet_pass_stops_at_failure (H:=Demo.externals) Demo.quiet
           (add_line (FoundUsers 1) (add_line FetchingUsers Demo.quiet))
           (add_line (CheckingUser "u")
              (add_line (FoundUsers 1) (add_line FetchingUsers Demo.quiet)))
           _ [] [] "u" "f1" []
           [("f2", FieldDict (Some Demo.sample) [("p", ProbeDict (Some (JNum 70)))])]
           Demo.malformed [] ValueError _ _ _ _ _)).
  - reflexivity.
  - vm_compute. reflexivity.
  - reflexivity.
  - reflexivity.
  - vm_compute. reflexivity.
Defined.



(** *** Runs of the program *)

(** 46 retrieved entries and the live sample make 47: no scoring. *)
Example window_of_47_is_skipped :
  let out := process_field (H:=Demo.externals) "u" "f2" Demo.sample (Demo.fleet 46 ∅ 0) in
  out.1 = Ok None ∧ prediction_writes out.2 = []
  ∧ stdout out.2 = [Archived "u" "f2" 0; InsufficientData "f2" 47].
Proof. vm_compute. done. Qed.

(** 47 retrieved entries and the live sample make 48: one record. *)
Example window_of_48_is_scored :
  let out := process_field (H:=Demo.externals) "u" "f2" Demo.sample Demo.full in
  out.1 = Ok (Some NORMAL) ∧ length (prediction_writes out.2) = 1%nat
  ∧ requests out.2 = [(JNum 20.5937, JNum 78.9629, 0%nat);
                      (JNum 20.5937, JNum 78.9629, 1%nat);
                      (JNum 20.5937, JNum 78.9629, 2%nat)].
Proof. vm_compute. done. Qed.

(** The archive gap: 1,499,999 ms is too short, 1,500,000 ms is enough. *)
Example archive_gap_too_short :
  archive_writes (process_field (H:=Demo.externals) "u" "f2" Demo.sample Demo.throttled).2 = [].
Proof. vm_compute. done. Qed.

Example archive_gap_reached :
  archive_writes (process_field (H:=Demo.externals) "u" "f2" Demo.sample
                    (Demo.fleet 3 {[ 1000%Z := Demo.entry25 1000 ]} 1501000)).2
  = [SetHistory "u" "f2" 1501000 (Demo.entry25 1501000)].
Proof. vm_compute. done. Qed.

(** A probe of a scored field receives the combined risk; a probe of a
    field whose scoring was skipped receives nothing. *)
Example probe_of_scored_field :
  probe_writes (run_field (H:=Demo.externals) "u"
                  ("f2", FieldDict (Some Demo.sample) [("p", ProbeDict (Some (JNum 70)))])
                  Demo.full).2
  = [SetProbePrediction "u" "f2" "p" NORMAL].
Proof. vm_compute. done. Qed.

Example probe_of_skipped_field :
  let out := run_field (H:=Demo.externals) "u"
               ("f2", FieldDict (Some Demo.sample) [("p", ProbeDict (Some (JNum 70)))])
               Demo.quiet in
  probe_writes out.2 = []
  ∧ stdout out.2 = [CheckingField "f2"; ProcessingEnv "f2"; Archived "u" "f2" 0;
                    InsufficientData "f2" 4; InvalidMoisture "p" (JNum 70)].
Proof. vm_compute. done. Qed.

(** Floats: the nearest binary64 number to a decimal literal. *)
Example float_literals :
  round64 0.1 = 3602879701896397 # 36028797018963968
  ∧ round64 0.7 = 3152519739159347 # 4503599627370496
  ∧ round64 (1 # 2) = 1 # 2.
Proof. vm_compute. done. Qed.

(** At a threshold of 0.04 the product of line 242 is the float just
    below 0.028, so that an error of 0.028 is WATCH; at a threshold of
    0.09 the product is the float 0.063 itself, so that an error of
    0.063 is NORMAL. *)
Example watch_bound_at_004 :
  float_mul (round64 0.04) (round64 0.7) < round64 0.028
  ∧ classify (H:=Fixtures.calibrated (round64 0.04)) (round64 0.028) = WATCH.
Proof. vm_compute. done. Qed.

Example watch_bound_at_009 :
  float_mul (round64 0.09) (round64 0.7) = round64 0.063
  ∧ classify (H:=Fixtures.calibrated (round64 0.09)) (round64 0.063) = NORMAL.
Proof. vm_compute. done. Qed.

(** At the least positive float, [2 ^ -1074], the product rounds back
    to the threshold, and an error equal to the threshold is NORMAL. *)
Example watch_bound_at_least_float :
  float_mul (2 ^ (-1074)) (round64 0.7) == 2 ^ (-1074)
  ∧ classify (H:=Fixtures.calibrated (2 ^ (-1074))) (2 ^ (-1074)) = NORMAL.
Proof. vm_compute. done. Qed.

(** [round(0.003 / 0.04, 2)] is 0.07: the quotient of the two floats
    is just below 0.075. *)
Example confidence_of_a_float_quotient :
  rbind (float_div (round64 0.003) (round64 0.04)) (λ ratio, Ok (py_round2 ratio))
  = Ok (round64 0.07).
Proof. vm_compute. done. Qed.

(** The third day back answers 4.5 after a failure and a sentinel. *)
Example solar_third_attempt :
  (get_latest_solar (H:=Demo.externals) (Some (JNum 20.5937)) (Some (JNum 78.9629))
     Demo.quiet).1 = Ok 4.5.
Proof. vm_compute. done. Qed.

(** A latitude that is the number zero is taken for a missing one;
    the text "0" is not. *)
Example solar_at_the_equator :
  get_latest_solar (H:=Demo.externals) (Some (JNum 0)) (Some (JNum 78.9629)) Demo.quiet
  = (Ok 0.0, Demo.quiet)
  ∧ get_latest_solar (H:=Demo.externals) (Some (JText "0")) (Some (JNum 78.9629)) Demo.quiet
    = (Ok 4.5, requested (JText "0") (JNum 78.9629) [0; 1; 2]%nat Demo.quiet).
Proof. vm_compute. done. Qed.

(** ** Relations kept along every run *)

Section steps.
Context (R : world → world → Prop).
Hypothesis R_refl : ∀ w, R w w.
Hypothesis R_trans : ∀ w1 w2 w3, R w1 w2 → R w2 w3 → R w1 w3.

Lemma steps_ret {A} (a : A) : steps R (ret a).
Proof. intros w. apply R_refl. Qed.

Lemma steps_raise {A} e : steps R (raise (A:=A) e).
Proof. intros w. apply R_refl. Qed.

Lemma steps_lift {A} (r : result A) : steps R (lift r).
Proof. intros w. apply R_refl. Qed.

Lemma steps_bind {A C} (m : M A) (k : A → M C) :
  steps R m → (∀ a, steps R (k a)) → steps R (bind m k).
Proof.
  intros Hm Hk w. unfold bind. specialize (Hm w).
  destruct (m w) as [[a|e] w']; simpl in *; [|done].
  apply (R_trans _ w'); [done | apply Hk].
Qed.

Lemma steps_try_except {A} (body : M A) handler :
  steps R body → (∀ e, steps R (handler e)) → steps R (try_except body handler).
Proof.
  intros Hm Hk w. unfold try_except. specialize (Hm w).
  destruct (body w) as [[a|e] w']; simpl in *; [done|].
  apply (R_trans _ w'); [done | apply Hk].
Qed.

Lemma steps_for_each {A} (body : A → M unit) l :
  (∀ x, x ∈ l → steps R (body x)) → steps R (for_each body l).
Proof.
  induction l as [|x l IH]; intros Hb; simpl.
  - apply steps_ret.
  - apply steps_bind; [apply Hb; apply list_elem_of_here|].
    intros _. apply IH. intros y Hy. apply Hb. by apply list_elem_of_further.
Qed.

End steps.

Section steps_app.
Context `{Externals} (R : world → world → Prop).
Hypothesis R_refl : ∀ w, R w w.
Hypothesis R_trans : ∀ w1 w2 w3, R w1 w2 → R w2 w3 → R w1 w3.
Hypothesis R_line : ∀ x w, R w (add_line x w).
Hypothesis R_request : ∀ x w, R w (add_request x w).

Lemma steps_print x : steps R (print x).
Proof. intros w. apply R_line. Qed.

Lemma steps_solar_days lat lon days : steps R (solar_days lat lon days).
Proof.
  induction days as [|i days IH]; simpl.
  - by apply steps_ret.
  - apply steps_bind; [done | intros w; apply R_request |].
    intros [val|]; [|done].
    destruct (py_ne val (-999.0)); [by apply steps_ret | done].
Qed.

Lemma steps_get_latest_solar lat lon : steps R (get_latest_solar lat lon).
Proof.
  unfold get_latest_solar.
  destruct (negb (py_truthy lat) || negb (py_truthy lon)); [by apply steps_ret|].
  destruct lat, lon; try by apply steps_ret. apply steps_solar_days.
Qed.

Section one_field.
Context (u f : string).
Hypothesis R_prediction : ∀ p w, R w (add_write (SetPrediction u f p) w).
Hypothesis R_archive : ∀ e w,
  archive_due w u f → timestamp e = clock w →
  R w (add_write (SetHistory u f (clock w) e) (set_history (put_entry u f e w) w)).

Lemma steps_predict_and_write features : steps R (predict_and_write u f features).
Proof.
  unfold predict_and_write.
  apply steps_bind; [done | by apply steps_lift | intros X].
  apply steps_bind; [done | by apply steps_lift | intros recon].
  apply steps_bind; [done | by apply steps_lift | intros ratio].
  apply steps_bind; [done | intros w; apply R_refl | intros now].
  apply steps_bind; [done | intros w; apply R_prediction | intros _].
  apply steps_bind; [done | apply steps_print | intros _].
  by apply steps_ret.
Qed.

Lemma steps_score_window env records : steps R (score_window u f env records).
Proof.
  unfold score_window.
  apply steps_bind; [done | by apply steps_lift | intros dews].
  destruct (coordinates env) as [lat lon].
  apply steps_bind; [done | apply steps_get_latest_solar | intros solar].
  apply steps_bind; [done | by apply steps_lift | intros features].
  apply steps_predict_and_write.
Qed.

Lemma steps_evaluate_window env temp hum : steps R (evaluate_window u f env temp hum).
Proof.
  unfold evaluate_window.
  apply steps_bind; [done | intros w; apply R_refl | intros logs].
  destruct logs as [|entry logs].
  { apply steps_bind; [done | apply steps_print | intros _; by apply steps_ret]. }
  apply steps_bind; [done | by apply steps_lift | intros records].
  apply steps_bind; [done | by apply steps_lift | intros t].
  apply steps_bind; [done | by apply steps_lift | intros h].
  destruct (length (records ++ [(t, h)]) <? 48)%nat.
  - apply steps_bind; [done | apply steps_print | intros _; by apply steps_ret].
  - apply steps_score_window.
Qed.

Lemma archive_live_now e w :
  timestamp e = clock w → R w (archive_live u f (clock w) e w).2.
Proof.
  intros He. destruct (last_key (history_of w u f)) as [T|] eqn:E.
  - destruct (Z.lt_ge_cases (clock w - T) 1500000) as [Hd|Hd].
    + rewrite (archive_live_skip u f _ e w T E Hd). apply R_line.
    + rewrite (archive_live_write u f _ e w T E Hd). simpl.
      eapply R_trans; [|apply R_line].
      apply R_archive; [|done]. unfold archive_due. by rewrite E.
  - rewrite (archive_live_first u f _ e w E). simpl.
    eapply R_trans; [|apply R_line].
    apply R_archive; [|done]. unfold archive_due. by rewrite E.
Qed.

Lemma steps_process_field env : steps R (process_field u f env).
Proof.
  intros w. unfold process_field.
  destruct (env !! "temp") as [temp|]; [|apply R_refl].
  destruct (env !! "hum") as [hum|]; [|apply R_refl].
  unfold bind at 1, time_ms. unfold bind at 1, lift.
  destruct (py_float temp) as [t|e]; [|apply R_refl].
  unfold bind at 1, lift.
  destruct (py_float hum) as [h|e]; [|apply R_refl].
  unfold bind.
  pose proof (archive_live_now
                {| temperature := t; humidity := h; timestamp := clock w |} w eq_refl) as Ha.
  destruct (archive_live u f (clock w) _ w) as [[[]|e] w1]; simpl in Ha; [|done].
  eapply R_trans; [exact Ha | apply steps_evaluate_window].
Qed.

Hypothesis R_probe : ∀ p r w, R w (add_write (SetProbePrediction u f p r) w).

Lemma steps_run_probe farm_risk probe : steps R (run_probe u f farm_risk probe).
Proof.
  destruct probe as [probe_id [[raw|]|]]; simpl; try by apply steps_ret.
  apply steps_try_except; [done | |].
  - apply steps_bind; [done | by apply steps_lift | intros m].
    apply steps_bind; [done | | intros _].
    + destruct (grid_risk farm_risk m) as [r|]; [|by apply steps_raise].
      intros w. apply R_probe.
    + destruct (grid_risk farm_risk m); [apply steps_print | by apply steps_ret].
  - intros []; apply steps_print.
Qed.

Lemma steps_run_field field_data : steps R (run_field u (f, field_data)).
Proof.
  unfold run_field.
  apply steps_bind; [done | apply steps_print | intros _].
  destruct field_data as [[env|] probes|]; try apply steps_print.
  apply steps_bind; [done | apply steps_print | intros _].
  apply steps_bind; [done | apply steps_process_field | intros farm_risk].
  apply steps_for_each; [done..|]. intros probe _. apply steps_run_probe.
Qed.

End one_field.

Hypothesis R_write : ∀ x w, R w (add_write x w).
Hypothesis R_put : ∀ u f e w,
  archive_due w u f → timestamp e = clock w → R w (set_history (put_entry u f e w) w).

Lemma steps_run_user u : steps R (run_user u).
Proof.
  unfold run_user.
  apply steps_bind; [done | apply steps_print | intros _].
  apply steps_bind; [done | intros w; apply R_refl | intros ls].
  destruct ls as [|field ls]; [apply steps_print|].
  apply steps_for_each; [done..|]. intros [f fd] _.
  apply steps_run_field.
  - intros p w. apply R_write.
  - intros e w Hdue He. eapply R_trans; [by apply R_put | apply R_write].
  - intros p r w. apply R_write.
Qed.

Lemma steps_fleet_pass : steps R fleet_pass.
Proof.
  unfold fleet_pass. apply steps_try_except; [done | |].
  - apply steps_bind; [done | apply steps_print | intros _].
    apply steps_bind; [done | intros w; apply R_refl | intros us].
    apply steps_bind; [done | apply steps_print | intros _].
    apply steps_for_each; [done..|]. intros u _. apply steps_run_user.
  - intros e. apply steps_print.
Qed.

Hypothesis R_clock : ∀ t w, R w (set_clock t w).

Lemma steps_iterations n : steps R (iterations n).
Proof.
  induction n as [|n IH]; simpl; [by apply steps_ret|].
  apply steps_bind; [done | apply steps_fleet_pass | intros _].
  apply steps_bind; [done | apply steps_print | intros _].
  apply steps_bind; [done | intros w; apply R_clock | intros _].
  apply IH.
Qed.

Lemma steps_prediction_loop n : steps R (prediction_loop n).
Proof.
  unfold prediction_loop.
  apply steps_bind; [done | apply steps_print | intros _; apply steps_iterations].
Qed.

End steps_app.

(** ** What the archive keeps *)

Lemma history_of_put u f e w u' f' :
  history_of (set_history (put_entry u f e w) w) u' f' =
  if decide ((u', f') = (u, f)) then <[clock w := e]> (history_of w u f)
  else history_of w u' f'.
Proof.
  unfold history_of at 1, put_entry. simpl.
  destruct (decide ((u', f') = (u, f))) as [->|Hne].
  - by rewrite lookup_insert_eq.
  - by rewrite lookup_insert_ne.
Qed.

Lemma archive_ok_empty : archive_ok ∅.
Proof.
  split.
  - intros k e He. by rewrite lookup_empty in He.
  - intros k1 k2 [e He]. by rewrite lookup_empty in He.
Qed.

Lemma archive_ok_singleton k e : timestamp e = k → archive_ok {[ k := e ]}.
Proof.
  intros He. split.
  - intros k' e' H'. apply lookup_singleton_Some in H' as [<- <-]. done.
  - intros k1 k2 [e1 H1] [e2 H2] Hlt.
    apply lookup_singleton_Some in H1 as [<- _].
    apply lookup_singleton_Some in H2 as [<- _]. lia.
Qed.

Lemma archive_ok_put u f e w :
  archive_due w u f → timestamp e = clock w →
  archive_ok (history_of w u f) →
  archive_ok (<[clock w := e]> (history_of w u f)).
Proof.
  unfold archive_due. intros Hdue He [Hkey Hgap].
  destruct (last_key (history_of w u f)) as [T|] eqn:E.
  - destruct (last_key_some _ _ E) as [_ Hmax]. split.
    + intros k e' H'. apply lookup_insert_Some in H' as [[<- <-]|[_ H']]; [done|].
      by apply Hkey.
    + intros k1 k2 [e1 H1] [e2 H2] Hlt.
      apply lookup_insert_Some in H1 as [[<- <-]|[Hn1 H1]];
        apply lookup_insert_Some in H2 as [[<- <-]|[Hn2 H2]].
      * lia.
      * specialize (Hmax k2 (mk_is_Some _ _ H2)). lia.
      * specialize (Hmax k1 (mk_is_Some _ _ H1)). lia.
      * apply Hgap; [by eexists | by eexists | done].
  - apply last_key_none in E. rewrite E, insert_empty.
    by apply archive_ok_singleton.
Qed.

Lemma put_entry_fresh u f w :
  archive_due w u f → (history_of w u f) !! clock w = None.
Proof.
  unfold archive_due. intros Hdue.
  destruct (last_key (history_of w u f)) as [T|] eqn:E.
  - apply (last_key_fresh _ T); [done | lia].
  - apply last_key_none in E. rewrite E. apply lookup_empty.
Qed.

Section archive_invariants.
Context `{Externals}.

(** X1.  When every archive is well formed (each entry under its own
    timestamp, two entries of a field at least 1,500,000 ms apart), so
    is every archive after any number of iterations of the loop. *)
Theorem archive_stays_well_formed (n : nat) (w : world) :
  archives_ok w → archives_ok (prediction_loop n w).2.
Proof.
  apply (steps_prediction_loop (λ w w', archives_ok w → archives_ok w')).
  - done.
  - intros w1 w2 w3 H12 H23 H1. apply H23, H12, H1.
  - intros x w' Hw u f. apply Hw.
  - intros x w' Hw u f. apply Hw.
  - intros x w' Hw u f. apply Hw.
  - intros u f e w' Hdue He Hw u' f'. rewrite history_of_put.
    destruct (decide ((u', f') = (u, f))); [|apply Hw].
    by apply archive_ok_put.
  - intros t w' Hw u f. apply Hw.
Qed.

(** X2.  No iteration of the loop takes an entry out of an archive or
    replaces it: an entry found under a key before is found unchanged
    under that key after. *)
Theorem archive_only_grows (n : nat) (w : world) :
  archives_grow w (prediction_loop n w).2.
Proof.
  apply (steps_prediction_loop archives_grow).
  - by intros w' u f k e.
  - intros w1 w2 w3 H12 H23 u f k e Hk. by apply H23, H12.
  - by intros x w' u f k e.
  - by intros x w' u f k e.
  - by intros x w' u f k e.
  - intros u f e w' Hdue He u' f' k e' Hk. rewrite history_of_put.
    destruct (decide ((u', f') = (u, f))) as [[= -> ->]|]; [|done].
    rewrite lookup_insert_ne; [done|].
    intros <-. rewrite (put_entry_fresh u f w' Hdue) in Hk. done.
  - by intros t w' u f k e.
Qed.

(** X3.  Processing one child of [live_status] only adds writes for
    that user and field, and leaves the archive of every other field as
    it was. *)
Theorem field_run_is_confined (u f : string) (field_data : field_data) (w : world) :
  confined u f w (run_field u (f, field_data) w).2.
Proof.
  apply (steps_run_field (confined u f)).
  - intros w'. split; [|done]. exists []. by rewrite app_nil_r.
  - intros w1 w2 w3 [(n12 & E12 & F12) H12] [(n23 & E23 & F23) H23]. split.
    + exists (n12 ++ n23). rewrite E23, E12, app_assoc. split; [done|].
      by apply Forall_app.
    + intros u' f' Hne. rewrite H23, H12; done.
  - intros x w'. split; [|done]. exists []. simpl. by rewrite app_nil_r.
  - intros x w'. split; [|done]. exists []. simpl. by rewrite app_nil_r.
  - intros p w'. split; [|done]. exists [SetPrediction u f p]. split; [done|].
    by apply Forall_singleton.
  - intros e w' Hdue He. split.
    + exists [SetHistory u f (clock w') e]. split; [done|]. by apply Forall_singleton.
    + intros u' f' Hne. change (history_of (set_history (put_entry u f e w') w') u' f'
                                = history_of w' u' f').
      rewrite history_of_put. by destruct (decide ((u', f') = (u, f))).
  - intros p r w'. split; [|done]. exists [SetProbePrediction u f p r]. split; [done|].
    by apply Forall_singleton.
Qed.

End archive_invariants.


Lemma archives_ok_of_entries (w : world) :
  map_Forall (λ _ h, archive_ok h) (history w) → archives_ok w.
Proof.
  intros Hall u f. unfold history_of.
  destruct (history w !! (u, f)) as [h|] eqn:E; simpl.
  - by apply (Hall _ _ E).
  - apply archive_ok_empty.
Qed.

Lemma store_archives_ok : archives_ok Fixtures.store.
Proof.
  apply archives_ok_of_entries. unfold Fixtures.store. simpl.
  repeat (apply map_Forall_insert_2; [by apply archive_ok_singleton|]).
  apply map_Forall_empty.
Qed.

Lemma archive_stays_well_formed_witness :
  archive_ok (history_of (prediction_loop (H:=Demo.externals) 2 Fixtures.store).2 "u" "f1").
Proof.
  apply (archive_stays_well_formed (H:=Demo.externals) 2 Fixtures.store
           store_archives_ok "u" "f1").
Defined.

(** The second pass over [Fixtures.store], half an hour after the
    first, adds the entry of that time to the archive of "f1". *)
Example archive_after_two_passes :
  history_of (prediction_loop (H:=Demo.externals) 2 Fixtures.store).2 "u" "f1"
  = {[ 1000%Z := Demo.entry25 1000; 1802000%Z := Demo.entry25 1802000 ]}.
Proof. vm_compute. reflexivity. Qed.

(** ** The loop as a whole *)

Lemma clock_add_line x w : clock (add_line x w) = clock w.
Proof. done. Qed.

Section loop.
Context `{Externals}.

Lemma fleet_pass_returns w :
  ∃ w', fleet_pass w = (Ok (), w') ∧ clock w' = clock w.
Proof.
  assert (Hc : clock (fleet_pass w).2 = clock w).
  { apply (steps_fleet_pass (λ w w', clock w' = clock w)); try done.
    intros w1 w2 w3 H12 H23. congruence. }
  assert (Hr : (fleet_pass w).1 = Ok ()).
  { unfold fleet_pass, try_except.
    by destruct (bind _ _ w) as [[[]|e] w1]. }
  destruct (fleet_pass w) as [r w']. simpl in *. subst r. by exists w'.
Qed.

Lemma iterations_return n w :
  ∃ w', iterations n w = (Ok (), w')
        ∧ (n = 0%nat → w' = w)
        ∧ ((0 < n)%nat → last (stdout w') = Some Sleeping).
Proof.
  revert w. induction n as [|n IH]; intros w.
  - exists w. split; [done|]. split; [done | lia].
  - destruct (fleet_pass_returns w) as (w1 & E1 & _).
    destruct (IH (set_clock (clock (add_line Sleeping w1) + 1800 * 1000)
                    (add_line Sleeping w1))) as (w2 & E2 & Hzero & Hlast).
    exists w2. split; [|split; [lia|]].
    + cbn [iterations]. rewrite (bind_ok _ _ _ _ _ E1).
      unfold bind at 1. simpl. unfold bind at 1. simpl. exact E2.
    + intros _. destruct n as [|n]; [|apply Hlast; lia].
      rewrite (Hzero eq_refl). simpl. apply last_snoc.
Qed.

(** X4.  Whatever the world holds, the loop never raises: any number
    of iterations returns normally.  Every pass, failed or not, comes
    to its sleep, so that after at least one iteration the last line
    printed is the one that announces the sleep; the line that
    announces the loop and everything printed before it are still
    there. *)
Theorem loop_never_raises (n : nat) (w : world) :
  ∃ w', prediction_loop n w = (Ok (), w')
        ∧ ((0 < n)%nat → last (stdout w') = Some Sleeping)
        ∧ StartingLoop ∈ stdout w'
        ∧ stdout_grows w w'.
Proof.
  destruct (iterations_return n (add_line StartingLoop w)) as (w' & E & _ & Hlast).
  assert (Hrun : prediction_loop n w = (Ok (), w')).
  { unfold prediction_loop. unfold bind at 1. simpl. exact E. }
  assert (Hgrow : ∀ w0, stdout_grows w0 (iterations n w0).2).
  { apply (steps_iterations stdout_grows);
      [by intros ?? | intros w1 w2 w3 H12 H23 x Hx; by apply H23, H12
      | intros x w0 y Hy; simpl; apply elem_of_app; by left
      | by intros ??? | by intros ??? | by intros ??????? | by intros ????]. }
  specialize (Hgrow (add_line StartingLoop w)). rewrite E in Hgrow. simpl in Hgrow.
  exists w'. split; [exact Hrun|]. split; [exact Hlast|]. split.
  - apply Hgrow. simpl. apply elem_of_app. right. apply list_elem_of_here.
  - intros x Hx. apply Hgrow. simpl. apply elem_of_app. by left.
Qed.

Lemma run_probe_scored u f r probe w :
  ∃ w', run_probe u f (Some r) probe w = (Ok (), w')
        ∧ writes w' = writes w ++ due_probe_writes u f r [probe].
Proof.
  destruct probe as [probe_id [[[m|s]|]|]].
  - unfold run_probe, try_except, bind, lift, py_float.
    rewrite grid_risk_table. simpl. by eexists.
  - unfold run_probe, try_except, bind, lift. simpl. eexists. split; [done|].
    by rewrite app_nil_r.
  - simpl. eexists. split; [done|]. by rewrite app_nil_r.
  - simpl. eexists. split; [done|]. by rewrite app_nil_r.
Qed.

Lemma due_probe_writes_cons u f r probe probes :
  due_probe_writes u f r (probe :: probes)
  = due_probe_writes u f r [probe] ++ due_probe_writes u f r probes.
Proof.
  unfold due_probe_writes. simpl.
  by destruct (match probe.2 with ProbeDict (Some (JNum _)) => _ | _ => _ end).
Qed.

(** X5.  For a field whose evaluation returned the risk [r], the loop
    over its probes always ends normally and writes, in order, one
    prediction for each probe that is a dict with a numeric
    [raw_moisture], namely the cell of the table for [r] and the
    moisture's category; a probe that is not a dict, has no
    [raw_moisture] or a text for it gets nothing and does not stop the
    others. *)
Theorem probes_get_their_risk (u f : string) (r : risk)
    (probes : list (string * probe_data)) (w : world) :
  ∃ w', for_each (run_probe u f (Some r)) probes w = (Ok (), w')
        ∧ writes w' = writes w ++ due_probe_writes u f r probes.
Proof.
  revert w. induction probes as [|probe probes IH]; intros w.
  - exists w. split; [done|]. simpl. by rewrite app_nil_r.
  - destruct (run_probe_scored u f r probe w) as (w1 & E1 & Hw1).
    destruct (IH w1) as (w2 & E2 & Hw2).
    exists w2. split.
    + simpl. by rewrite (bind_ok _ _ _ _ _ E1).
    + rewrite Hw2, Hw1, (due_probe_writes_cons u f r probe probes).
      by rewrite app_assoc.
Qed.

End loop.

Example due_probe_writes_run :
  due_probe_writes "u" "f" WATCH Fixtures.probes
  = [SetProbePrediction "u" "f" "p1" WARNING; SetProbePrediction "u" "f" "p5" NORMAL].
Proof. reflexivity. Qed.

(** ** More on the irradiance lookup *)

Section solar_more.
Context `{Externals}.

Lemma solar_days_first lat lon val (k n j : nat) w :
  (∀ i, (j ≤ i < j + k)%nat → no_data (nasa_power lat lon i)) →
  nasa_power lat lon (j + k) = Some val → ¬ val == -999.0 →
  solar_days lat lon (seq j (S k + n)) w
  = (Ok val, requested lat lon (seq j (S k)) w).
Proof.
  revert j w. induction k as [|k IH]; intros j w Hbefore Hval Hne.
  - rewrite Nat.add_0_r in Hval. simpl. unfold bind at 1, requests_get.
    rewrite Hval. by rewrite (proj2 (py_ne_true val (-999.0)) Hne).
  - assert (Hj : no_data (nasa_power lat lon j)) by (apply Hbefore; lia).
    change (seq j (S (S k) + n)) with (j :: seq (S j) (S k + n)).
    change (seq j (S (S k))) with (j :: seq (S j) (S k)).
    rewrite requested_cons. cbn [solar_days]. unfold bind at 1, requests_get.
    assert (Hrest : solar_days lat lon (seq (S j) (S k + n)) (add_request (lat, lon, j) w)
                    = (Ok val, requested lat lon (seq (S j) (S k))
                                 (add_request (lat, lon, j) w))).
    { apply IH; [|by replace (S j + k)%nat with (j + S k)%nat by lia | done].
      intros i Hi. apply Hbefore. lia. }
    destruct (nasa_power lat lon j) as [v|]; simpl in Hj; [|exact Hrest].
    unfold py_ne. rewrite (proj2 (Qeq_bool_iff v (-999.0)) Hj). exact Hrest.
Qed.

(** X6.  With both coordinates present and not zero, when the
    attempts for the first [k] days (fewer than five) fail or answer
    the sentinel and the next one answers another value, that value is
    returned after exactly these [k + 1] requests, in order. *)
Theorem solar_first_value (la lo : jvalue) (k : nat) (val : Q) (w : world) :
  py_truthy (Some la) = true → py_truthy (Some lo) = true →
  (k < 5)%nat →
  (∀ i, (i < k)%nat → no_data (nasa_power la lo i)) →
  nasa_power la lo k = Some val → ¬ val == -999.0 →
  get_latest_solar (Some la) (Some lo) w
  = (Ok val, requested la lo (seq 0 (S k)) w).
Proof.
  intros Hla Hlo Hk Hbefore Hval Hne. unfold get_latest_solar.
  rewrite Hla, Hlo. cbn [negb orb].
  replace 5%nat with (S k + (4 - k))%nat by lia.
  apply solar_days_first; [|done..].
  intros i Hi. apply Hbefore. lia.
Qed.

Lemma solar_days_summary lat lon days w :
  ∃ v k, (k ≤ length days)%nat ∧ ¬ v == -999.0
         ∧ solar_days lat lon days w = (Ok v, requested lat lon (take k days) w).
Proof.
  revert w. induction days as [|i days IH]; intros w.
  - exists 5.0, 0%nat. split; [done|]. split; [|done]. intros E. discriminate E.
  - cbn [solar_days]. unfold bind at 1, requests_get.
    destruct (IH (add_request (lat, lon, i) w)) as (v & k & Hk & Hv & E).
    assert (Hnext : ∃ v k, (k ≤ length (i :: days))%nat ∧ ¬ v == -999.0
                           ∧ solar_days lat lon days (add_request (lat, lon, i) w)
                             = (Ok v, requested lat lon (take k (i :: days)) w)).
    { exists v, (S k). split; [simpl; lia|]. split; [done|]. by rewrite E. }
    destruct (nasa_power lat lon i) as [val|]; [|exact Hnext].
    destruct (py_ne val (-999.0)) eqn:Ene; [|exact Hnext].
    exists val, 1%nat. split; [simpl; lia|]. split; [by apply py_ne_true|].
    done.
Qed.

(** X7.  [get_latest_solar] never raises and never returns the
    sentinel -999.0; it sends at most five requests, for days 0, 1, ...
    back in that order and for the coordinates it was given, and
    changes nothing else. *)
Theorem solar_never_sentinel (lat lon : option jvalue) (w : world) :
  ∃ v k, (k ≤ 5)%nat ∧ ¬ v == -999.0
         ∧ get_latest_solar lat lon w
           = (Ok v, match lat, lon with
                    | Some la, Some lo => requested la lo (seq 0 k) w
                    | _, _ => w
                    end).
Proof.
  unfold get_latest_solar.
  destruct (negb (py_truthy lat) || negb (py_truthy lon)) eqn:E.
  - exists 0.0, 0%nat. split; [lia|]. split; [intros E'; discriminate E'|].
    by destruct lat, lon.
  - destruct lat as [la|], lon as [lo|]; try (simpl in E; by rewrite ?orb_true_r in E).
    destruct (solar_days_summary la lo (seq 0 5) w) as (v & k & Hk & Hv & ->).
    exists v, k. split; [by rewrite length_seq in Hk|]. split; [done|].
    rewrite take_seq. by replace (k `min` 5)%nat with k by (rewrite length_seq in Hk; lia).
Qed.


End solar_more.

Lemma solar_first_value_witness :
  get_latest_solar (H:=Demo.externals) (Some (JNum 20.5937)) (Some (JNum 78.9629)) Demo.quiet
  = (Ok 4.5, requested (JNum 20.5937) (JNum 78.9629) [0; 1; 2]%nat Demo.quiet).
Proof.
  apply (solar_first_value (H:=Demo.externals) (JNum 20.5937) (JNum 78.9629) 2 4.5 Demo.quiet).
  - reflexivity.
  - reflexivity.
  - lia.
  - intros i Hi. destruct i as [|[|i]]; simpl; [exact I | reflexivity | lia].
  - reflexivity.
  - intros E. discriminate E.
Defined.


(** ** More on the field evaluation *)

Lemma filter_all_length {A} (P : A → Prop) `{∀ x, Decision (P x)} (l : list A) :
  length (filter P l) = length l → Forall P l.
Proof.
  induction l as [|x l IH]; [by constructor|].
  intros E. destruct (decide (P x)) as [Hx|Hx].
  - rewrite filter_cons_True in E by done. simpl in E.
    constructor; [done|]. apply IH. lia.
  - rewrite filter_cons_False in E by done. simpl in E.
    pose proof (length_filter P l). lia.
Qed.

Lemma filter_all_Forall {A} (P : A → Prop) `{∀ x, Decision (P x)} (l : list A) :
  Forall P l → filter P l = l.
Proof.
  induction 1 as [|x l Hx _ IH]; [done|].
  by rewrite filter_cons_True, IH.
Qed.

Lemma window_size_full w u f :
  (48 ≤ window_size w u f)%nat ↔ full_usable_window w u f.
Proof.
  unfold window_size, full_usable_window, last47.
  set (logs := default [] (historical_logs w !! (u, f))).
  pose proof (length_filter (λ entry, has_both entry = true)
                (drop (length logs - 47) logs)) as Hf.
  pose proof (length_drop logs (length logs - 47)) as Hd.
  split.
  - intros Hsize. split; [lia|].
    apply (filter_all_length (λ entry, has_both entry = true)). lia.
  - intros [Hlen Hall].
    rewrite (filter_all_Forall (λ entry, has_both entry = true) _ Hall). lia.
Qed.

Section evaluation_more.
Context `{Externals}.

Lemma score_window_not_none u f env records w :
  (score_window u f env records w).1 ≠ Ok None.
Proof.
  destruct (score_window_outcome u f env records w)
    as [(p & w' & -> & _)|(e & w' & -> & _)]; done.
Qed.

Lemma evaluate_window_none u f env temp hum w :
  (evaluate_window u f env temp hum w).1 = Ok None →
  requests (evaluate_window u f env temp hum w).2 = requests w
  ∧ writes (evaluate_window u f env temp hum w).2 = writes w.
Proof.
  unfold evaluate_window, bind, db_logs_last47, lift.
  destruct (drop _ _) as [|entry logs]; [done|].
  destruct (collect_records _) as [records|e]; [|done].
  destruct (py_float temp) as [t|e]; [|done].
  destruct (py_float hum) as [h|e]; [|done].
  destruct (length (records ++ [(t, h)]) <? 48)%nat; [done|].
  intros E. by apply score_window_not_none in E.
Qed.

Lemma archive_live_keeps_requests u f ts e w :
  requests (archive_live u f ts e w).2 = requests w.
Proof.
  apply (keeps_archive_live requests); [by intros ?? | by intros ?? | by intros ???].
Qed.

(** X9.  An evaluation that returns [None] (a sample without
    temperature or humidity, no log entries, or a window that is not
    full) has sent no irradiance request and written no Prediction
    Record. *)
Theorem skipped_evaluation_is_quiet (u f : string) (env : gmap string jvalue) (w : world) :
  (process_field u f env w).1 = Ok None →
  requests (process_field u f env w).2 = requests w
  ∧ prediction_writes (process_field u f env w).2 = prediction_writes w.
Proof.
  unfold process_field.
  destruct (env !! "temp") as [temp|]; [|done].
  destruct (env !! "hum") as [hum|]; [|done].
  unfold bind at 1 3 5, time_ms. unfold bind at 1 3 5, lift.
  destruct (py_float temp) as [t|e]; [|done].
  unfold bind at 1 3 5, lift.
  destruct (py_float hum) as [h|e]; [|done].
  unfold bind.
  destruct (archive_live_returns u f (clock w)
              {| temperature := t; humidity := h; timestamp := clock w |} w)
    as (w1 & Ea & _ & Hp).
  pose proof (archive_live_keeps_requests u f (clock w)
                {| temperature := t; humidity := h; timestamp := clock w |} w) as Hr.
  rewrite Ea in Hr |- *. simpl in Hr. intros E.
  destruct (evaluate_window_none u f env temp hum w1 E) as [Hreq Hw].
  split; [congruence|]. rewrite <- Hp. by apply prediction_writes_same.
Qed.

(** X10.  An evaluation writes at most one archive entry, and only
    from a sample whose temperature and humidity are both numbers: the
    entry then holds these two values and the current time, under the
    key of the current time, and the archive was empty or its last
    entry at least 1,500,000 ms old. *)
Theorem archive_entry_is_the_sample (u f : string) (env : gmap string jvalue) (w : world) :
  archive_writes (process_field u f env w).2 = archive_writes w
  ∨ ∃ t h,
      env !! "temp" = Some (JNum t) ∧ env !! "hum" = Some (JNum h)
      ∧ archive_due w u f
      ∧ archive_writes (process_field u f env w).2
        = archive_writes w
          ++ [SetHistory u f (clock w)
                {| temperature := t; humidity := h; timestamp := clock w |}]
      ∧ history_of (process_field u f env w).2 u f !! clock w
        = Some {| temperature := t; humidity := h; timestamp := clock w |}.
Proof.
  destruct (env !! "temp") as [[t|s]|] eqn:Et;
    [|left; unfold process_field; rewrite Et; by destruct (env !! "hum")
     |left; by rewrite process_field_missing by (by left)].
  destruct (env !! "hum") as [[h|s]|] eqn:Eh;
    [|left; unfold process_field; by rewrite Et, Eh
     |left; by rewrite process_field_missing by (by right)].
  set (entry := {| temperature := t; humidity := h; timestamp := clock w |}).
  match goal with
  | |- _ ∨ ?G =>
      assert (Hwrite : archive_live u f (clock w) entry w
                       = (Ok (), archived u f (clock w) entry w) →
                       archive_due w u f → G)
  end.
  { intros Ea Hdue. exists t, h. split; [done|]. split; [done|]. split; [done|].
    rewrite (process_field_after_archive u f env t h w _ Et Eh Ea).
    rewrite evaluate_window_keeps_archive_writes. split; [apply archive_writes_archived|].
    unfold history_of. rewrite evaluate_window_keeps_history.
    fold (history_of (archived u f (clock w) entry w) u f).
    rewrite history_of_archived. apply lookup_insert_eq. }
  destruct (last_key (history_of w u f)) as [T|] eqn:E.
  - destruct (Z.lt_ge_cases (clock w - T) 1500000) as [Hd|Hd].
    + left.
      rewrite (process_field_after_archive u f env t h w _ Et Eh
                 (archive_live_skip u f _ entry w T E Hd)).
      by rewrite evaluate_window_keeps_archive_writes.
    + right. apply Hwrite; [by apply archive_live_write with T|].
      unfold archive_due. by rewrite E.
  - right. apply Hwrite; [by apply archive_live_first|].
    unfold archive_due. by rewrite E.
Qed.

(** X11.  For a sample and log entries whose values are numbers, the
    evaluation returns [None] exactly when the window cannot be filled:
    fewer than 47 log entries are stored, or one of the last 47 lacks
    its temperature or its humidity.  Older entries are never used in
    place of an unusable one. *)
Theorem scoring_needs_47_usable_entries (u f : string) (env : gmap string jvalue)
    (t h : Q) (w : world) :
  env !! "temp" = Some (JNum t) → env !! "hum" = Some (JNum h) →
  logs_numeric (last47 w u f) →
  (process_field u f env w).1 = Ok None ↔ ¬ full_usable_window w u f.
Proof.
  intros Ht Hh Hnum. rewrite <- window_size_full. split.
  - intros E Hsize.
    destruct (process_field_full u f env t h w Ht Hh Hnum Hsize)
      as [(p & w' & E' & _)|(e & w' & E' & _)]; rewrite E' in E; done.
  - intros Hsize.
    destruct (process_field_short u f env t h w Ht Hh Hnum) as (w' & -> & _); [lia | done].
Qed.

End evaluation_more.

(** ** The Prediction Record *)

Lemma fold_left_Qplus_nonneg (l : list Q) (a : Q) :
  0 <= a → Forall (λ x, 0 <= x) l → 0 <= fold_left Qplus l a.
Proof.
  intros Ha Hl. revert a Ha. induction Hl as [|x l Hx _ IH]; intros a Ha; simpl.
  - done.
  - apply IH. lra.
Qed.

Lemma np_mean_nonneg (l : list Q) : Forall (λ x, 0 <= x) l → 0 <= np_mean l.
Proof.
  intros Hl. unfold np_mean, np_sum, Qdiv.
  apply Qmult_le_0_compat.
  - apply fold_left_Qplus_nonneg; [lra | done].
  - apply Qinv_le_0_compat. change 0 with (inject_Z 0).
    rewrite <- Zle_Qle. lia.
Qed.

Lemma square_nonneg (x : Q) : 0 <= x * x.
Proof.
  destruct (Qlt_le_dec x 0) as [Hneg|Hpos].
  - assert (E : x * x == (- x) * (- x)) by ring.
    rewrite E. apply Qmult_le_0_compat; lra.
  - by apply Qmult_le_0_compat.
Qed.

Lemma squares_nonneg (X recon : list Q) :
  Forall (λ x, 0 <= x) (zip_with (λ x r, (x - r) * (x - r)) X recon).
Proof.
  revert recon. induction X as [|x X IH]; intros [|r recon]; simpl; try by constructor.
  constructor; [|apply IH]. apply square_nonneg.
Qed.

Lemma reconstruction_error_nonneg (X recon : list Q) : 0 <= reconstruction_error X recon.
Proof. apply np_mean_nonneg, squares_nonneg. Qed.

Section record.
Context `{Externals}.

Lemma classify_not_warning error : classify error ≠ WARNING.
Proof.
  unfold classify.
  by destruct (py_gt error THRESHOLD),
       (py_gt error (float_mul THRESHOLD (round64 0.7))).
Qed.

Lemma predict_and_write_some u f features w r w' :
  predict_and_write u f features w = (Ok (Some r), w') →
  ∃ p ratio,
    w' = add_line (PredictionLine f r (anomaly_score p)) (add_write (SetPrediction u f p) w)
    ∧ pred_risk p = r ∧ r = classify (anomaly_score p)
    ∧ 0 <= anomaly_score p
    ∧ reason p = reason_of r
    ∧ lastUpdated p = clock w
    ∧ float_div (anomaly_score p) THRESHOLD = Ok ratio
    ∧ confidence p = py_round2 ratio.
Proof.
  unfold predict_and_write, bind, lift.
  destruct (scaler_transform features) as [X|e]; [|done].
  destruct (autoencoder_predict X) as [recon|e]; [|done].
  destruct (float_div _ _) as [ratio|e] eqn:Ediv; [|done].
  simpl. intros [= <- <-].
  eexists {| pred_risk := _ |}, ratio. simpl.
  split; [reflexivity|]. split; [done|]. split; [done|].
  split; [apply reconstruction_error_nonneg|]. done.
Qed.

Lemma get_latest_solar_keeps_clock lat lon w :
  clock (get_latest_solar lat lon w).2 = clock w.
Proof. apply (keeps_get_latest_solar clock). by intros ??. Qed.

Lemma process_field_keeps_clock u f env w :
  clock (process_field u f env w).2 = clock w.
Proof.
  apply (keeps_process_field clock); try (by intros ??); by intros ???.
Qed.

Lemma score_window_some u f env records w r w' :
  score_window u f env records w = (Ok (Some r), w') →
  ∃ features w1, clock w1 = clock w
                 ∧ predict_and_write u f features w1 = (Ok (Some r), w').
Proof.
  unfold score_window. unfold bind at 1, lift.
  destruct (rmap_list _ _) as [dews|e]; [|done].
  destruct (coordinates env) as [lat lon].
  unfold bind at 1.
  pose proof (get_latest_solar_keeps_clock (Some lat) (Some lon) w) as Hc.
  destruct (get_latest_solar (Some lat) (Some lon) w) as [[solar|e] w1]; [|done].
  unfold bind at 1, lift.
  destruct (build_features _ _ _ _ _) as [features|e]; [|done].
  intros E. by exists features, w1.
Qed.

Lemma evaluate_window_some u f env temp hum w r w' :
  evaluate_window u f env temp hum w = (Ok (Some r), w') →
  ∃ features w1, clock w1 = clock w
                 ∧ predict_and_write u f features w1 = (Ok (Some r), w').
Proof.
  unfold evaluate_window, bind, db_logs_last47, lift.
  destruct (drop _ _) as [|entry logs]; [done|].
  destruct (collect_records _) as [records|e]; [|done].
  destruct (py_float temp) as [t|e]; [|done].
  destruct (py_float hum) as [h|e]; [|done].
  destruct (length (records ++ [(t, h)]) <? 48)%nat; [done|].
  apply score_window_some.
Qed.

Lemma archive_live_keeps_clock u f ts e w :
  clock (archive_live u f ts e w).2 = clock w.
Proof.
  apply (keeps_archive_live clock); [by intros ?? | by intros ?? | by intros ???].
Qed.

(** X12.  When an evaluation returns a risk, the last write is the
    Prediction Record of the field, and the record is consistent: its
    risk is the one returned and is the class of its anomaly score, it
    is never WARNING, the score is not negative, the reason is the
    text of that risk, and the confidence is the quotient of the score
    by the threshold, as a float, rounded to two places. *)
Theorem prediction_record_is_consistent (u f : string) (env : gmap string jvalue)
    (w w' : world) (r : risk) :
  process_field u f env w = (Ok (Some r), w') →
  ∃ p ratio,
    last (writes w') = Some (SetPrediction u f p)
    ∧ pred_risk p = r ∧ r = classify (anomaly_score p) ∧ r ≠ WARNING
    ∧ 0 <= anomaly_score p
    ∧ reason p = reason_of r
    ∧ float_div (anomaly_score p) THRESHOLD = Ok ratio
    ∧ confidence p = py_round2 ratio.
Proof.
  unfold process_field.
  destruct (env !! "temp") as [temp|]; [|done].
  destruct (env !! "hum") as [hum|]; [|done].
  unfold bind at 1, time_ms. unfold bind at 1, lift.
  destruct (py_float temp) as [t|e]; [|done].
  unfold bind at 1, lift.
  destruct (py_float hum) as [h|e]; [|done].
  unfold bind.
  destruct (archive_live u f (clock w) _ w) as [[[]|e] wa]; [|done].
  intros E.
  destruct (evaluate_window_some u f env temp hum wa r w' E) as (features & w1 & Hc1 & E1).
  destruct (predict_and_write_some u f features w1 r w' E1)
    as (p & ratio & -> & Hr & Hcl & Hs & Hre & Hup & Hdiv & Hconf).
  exists p, ratio. split; [simpl; apply last_snoc|].
  split; [done|]. split; [done|]. split; [rewrite Hcl; apply classify_not_warning|].
  split; [done|]. split; [done|]. split; [done|]. done.
Qed.

(** X13.  The risk class does not decrease when the reconstruction
    error grows, whatever the threshold. *)
Theorem classify_is_monotone (e1 e2 : Q) :
  e1 <= e2 → risk_le (classify e1) (classify e2).
Proof.
  intros Hle. unfold risk_le, classify.
  destruct (py_gt e1 THRESHOLD) eqn:A1; destruct (py_gt e2 THRESHOLD) eqn:A2;
    destruct (py_gt e1 (float_mul THRESHOLD (round64 0.7))) eqn:B1;
    destruct (py_gt e2 (float_mul THRESHOLD (round64 0.7))) eqn:B2; simpl; try lia;
    repeat match goal with
           | E : py_gt _ _ = true |- _ => apply py_gt_true in E
           | E : py_gt _ _ = false |- _ => apply py_gt_false in E
           end; lra.
Qed.

End record.

(** X14.  The probe risk stays within one level of the farm risk: dry
    soil never raises it, moderate soil leaves it as it is, wet soil
    never lowers it, and a NORMAL farm risk stays NORMAL at any
    moisture. *)
Theorem grid_risk_stays_close (r : risk) (soil : Q) :
  ∃ p, grid_risk (Some r) soil = Some p
       ∧ (risk_rank p ≤ risk_rank r + 1)%nat ∧ (risk_rank r ≤ risk_rank p + 1)%nat
       ∧ (soil_category soil = DRY → risk_le p r)
       ∧ (soil_category soil = MODERATE → p = r)
       ∧ (soil_category soil = WET → risk_le r p)
       ∧ (r = NORMAL → p = NORMAL).
Proof.
  rewrite grid_risk_table. eexists. split; [done|]. unfold risk_le.
  destruct r, (soil_category soil); simpl; repeat split; try done; lia.
Qed.

(** ** Evaluating a field twice *)

Lemma last_key_after_put u f e w :
  archive_due w u f → last_key (<[clock w := e]> (history_of w u f)) = Some (clock w).
Proof.
  intros Hdue. apply last_key_most_recent. split.
  - rewrite lookup_insert_eq. by eexists.
  - intros k [e' Hk]. apply lookup_insert_Some in Hk as [[<- _]|[_ Hk]]; [lia|].
    unfold archive_due in Hdue.
    destruct (last_key (history_of w u f)) as [T|] eqn:E.
    + destruct (last_key_some _ _ E) as [_ Hmax].
      specialize (Hmax k (mk_is_Some _ _ Hk)). lia.
    + apply last_key_none in E. rewrite E in Hk. by rewrite lookup_empty in Hk.
Qed.

Section twice.
Context `{Externals}.

(** An evaluation of a well-formed sample whose archive step is due
    leaves the sample as the last entry of the archive, under the time
    of the evaluation. *)
Lemma process_field_archives_when_due u f env t h w :
  env !! "temp" = Some (JNum t) → env !! "hum" = Some (JNum h) →
  archive_due w u f →
  last_key (history_of (process_field u f env w).2 u f) = Some (clock w)
  ∧ archive_writes (process_field u f env w).2
    = archive_writes w ++ [SetHistory u f (clock w)
                             {| temperature := t; humidity := h; timestamp := clock w |}].
Proof.
  intros Ht Hh Hdue.
  set (entry := {| temperature := t; humidity := h; timestamp := clock w |}).
  assert (Hrun : process_field u f env w
                 = evaluate_window u f env (JNum t) (JNum h) (archived u f (clock w) entry w)).
  { unfold archive_due in Hdue.
    destruct (last_key (history_of w u f)) as [T|] eqn:E.
    - apply (process_field_after_archive u f env t h w _ Ht Hh
               (archive_live_write u f _ entry w T E Hdue)).
    - apply (process_field_after_archive u f env t h w _ Ht Hh
               (archive_live_first u f _ entry w E)). }
  rewrite Hrun. split.
  - unfold history_of. rewrite evaluate_window_keeps_history.
    fold (history_of (archived u f (clock w) entry w) u f).
    rewrite history_of_archived. by apply last_key_after_put.
  - by rewrite evaluate_window_keeps_archive_writes, archive_writes_archived.
Qed.

(** X16.  After an evaluation that archived its sample, at time [t],
    no evaluation of the field archives before [t + 1,500,000 ms]: run
    at any time [now] below that on what the first evaluation left,
    the evaluation of a well-formed sample, the same or another one,
    leaves every archive and the list of archive writes as they
    were. *)
Theorem no_double_archive (u f : string) (env env' : gmap string jvalue)
    (t h t' h' : Q) (w : world) (now : Z) :
  env !! "temp" = Some (JNum t) → env !! "hum" = Some (JNum h) →
  env' !! "temp" = Some (JNum t') → env' !! "hum" = Some (JNum h') →
  archive_due w u f →
  (now - clock w < 1500000)%Z →
  let w1 := set_clock now (process_field u f env w).2 in
  archive_writes w1
  = archive_writes w ++ [SetHistory u f (clock w)
                           {| temperature := t; humidity := h; timestamp := clock w |}]
  ∧ history (process_field u f env' w1).2 = history w1
  ∧ archive_writes (process_field u f env' w1).2 = archive_writes w1.
Proof.
  intros Ht Hh Ht' Hh' Hdue Hnow w1.
  destruct (process_field_archives_when_due u f env t h w Ht Hh Hdue) as [Hlast Hwrites].
  assert (E : last_key (history_of w1 u f) = Some (clock w)) by exact Hlast.
  assert (Hgap : (clock w1 - clock w < 1500000)%Z) by exact Hnow.
  split; [exact Hwrites|].
  rewrite (process_field_after_archive u f env' t' h' w1 _ Ht' Hh'
             (archive_live_skip u f _ _ w1 (clock w) E Hgap)).
  by rewrite evaluate_window_keeps_history, evaluate_window_keeps_archive_writes.
Qed.

End twice.

Lemma no_double_archive_witness :
  let w1 := set_clock 1499999
              (process_field (H:=Demo.externals) "u" "f2" Demo.sample Demo.quiet).2 in
  archive_writes w1 = archive_writes Demo.quiet ++ [SetHistory "u" "f2" 0 (Demo.entry25 0)]
  ∧ archive_writes (process_field (H:=Demo.externals) "u" "f2" Demo.sample w1).2
    = archive_writes w1.
Proof.
  intros w1.
  destruct (no_double_archive (H:=Demo.externals) "u" "f2" Demo.sample Demo.sample
              25 50 25 50 Demo.quiet 1499999) as (Hfirst & _ & Hsecond).
  - vm_compute. reflexivity.
  - vm_compute. reflexivity.
  - vm_compute. reflexivity.
  - vm_compute. reflexivity.
  - vm_compute. exact I.
  - vm_compute. reflexivity.
  - split; [exact Hfirst | exact Hsecond].
Defined.

(** The first evaluation of [Demo.quiet] archives; a second one
    1,499,999 ms later does not, one 1,500,000 ms later does. *)
Example archive_once_in_two_runs :
  let first := (process_field (H:=Demo.externals) "u" "f2" Demo.sample Demo.quiet).2 in
  archive_writes (process_field (H:=Demo.externals) "u" "f2" Demo.sample
                    (set_clock 1499999 first)).2
  = [SetHistory "u" "f2" 0 (Demo.entry25 0)]
  ∧ archive_writes (process_field (H:=Demo.externals) "u" "f2" Demo.sample
                      (set_clock 1500000 first)).2
    = [SetHistory "u" "f2" 0 (Demo.entry25 0);
       SetHistory "u" "f2" 1500000 (Demo.entry25 1500000)].
Proof. vm_compute. done. Qed.

(** ** A pass in which nothing raises *)

Lemma for_each_cons_ok {A} (body : A → M unit) x l w w' :
  for_each body (x :: l) w = (Ok (), w') →
  ∃ w1, body x w = (Ok (), w1) ∧ for_each body l w1 = (Ok (), w').
Proof.
  simpl. unfold bind. destruct (body x w) as [[[]|e] w1]; [|done].
  intros E. by exists w1.
Qed.

Lemma stdout_grows_refl w : stdout_grows w w.
Proof. by intros x. Qed.

Lemma stdout_grows_trans w1 w2 w3 :
  stdout_grows w1 w2 → stdout_grows w2 w3 → stdout_grows w1 w3.
Proof. intros H12 H23 x Hx. by apply H23, H12. Qed.

Lemma stdout_grows_line x w : stdout_grows w (add_line x w).
Proof. intros y Hy. simpl. apply elem_of_app. by left. Qed.

Section quiet_pass.
Context `{Externals}.

Lemma run_field_grows u field : steps stdout_grows (run_field u field).
Proof.
  destruct field as [f fd].
  apply (steps_run_field stdout_grows);
    [apply stdout_grows_refl | apply stdout_grows_trans | apply stdout_grows_line
    | by intros ??? | by intros ??? | by intros ????? | by intros ????].
Qed.

Lemma run_user_grows u : steps stdout_grows (run_user u).
Proof.
  apply (steps_run_user stdout_grows);
    [apply stdout_grows_refl | apply stdout_grows_trans | apply stdout_grows_line
    | by intros ??? | by intros ??? | by intros ???????].
Qed.

Lemma run_field_evaluates u f env probes w :
  evaluated f (run_field u (f, FieldDict (Some env) probes) w).2.
Proof.
  unfold run_field. unfold bind at 1. simpl. unfold bind at 1. simpl.
  set (w0 := add_line (ProcessingEnv f) (add_line (CheckingField f) w)).
  assert (Hrest : steps stdout_grows
            (bind (process_field u f env) (λ farm_risk,
               for_each (run_probe u f farm_risk) probes))).
  { apply steps_bind; [apply stdout_grows_trans | |].
    - apply (steps_process_field stdout_grows);
        [apply stdout_grows_refl | apply stdout_grows_trans | apply stdout_grows_line
        | by intros ??? | by intros ??? | by intros ?????].
    - intros farm_risk. apply steps_for_each;
        [apply stdout_grows_refl | apply stdout_grows_trans |].
      intros probe _. apply (steps_run_probe stdout_grows);
        [apply stdout_grows_refl | apply stdout_grows_trans | apply stdout_grows_line
        | by intros ????]. }
  apply (Hrest w0). unfold w0. simpl. apply elem_of_app. right. apply list_elem_of_here.
Qed.

Lemma run_fields_evaluate u fields w :
  ∀ f env probes, (f, FieldDict (Some env) probes) ∈ fields →
  (for_each (run_field u) fields w).1 = Ok () →
  evaluated f (for_each (run_field u) fields w).2.
Proof.
  revert w. induction fields as [|field fields IH]; intros w f env probes Hin Hok.
  { by apply elem_of_nil in Hin. }
  simpl in *. unfold bind in *.
  pose proof (run_field_evaluates u f env probes w) as Hhere.
  destruct (run_field u field w) as [[[]|e] w1] eqn:E1; [|done].
  apply elem_of_cons in Hin as [<-|Hin].
  - rewrite E1 in Hhere. simpl in Hhere.
    assert (Hg : steps stdout_grows (for_each (run_field u) fields)).
    { apply steps_for_each; [apply stdout_grows_refl | apply stdout_grows_trans |].
      intros x _. apply run_field_grows. }
    by apply (Hg w1).
  - by apply (IH w1 f env probes).
Qed.

Lemma run_user_evaluates u fields w f env probes :
  live_status w !! u = Some fields →
  (f, FieldDict (Some env) probes) ∈ fields →
  (run_user u w).1 = Ok () →
  evaluated f (run_user u w).2.
Proof.
  intros Hls Hin.
  assert (Hne : fields ≠ []) by (intros ->; by apply elem_of_nil in Hin).
  rewrite (run_user_fields u fields w Hls Hne).
  by apply run_fields_evaluate with env probes.
Qed.

Lemma run_users_evaluate us w :
  ∀ u fields f env probes,
    u ∈ us → live_status w !! u = Some fields →
    (f, FieldDict (Some env) probes) ∈ fields →
    (for_each run_user us w).1 = Ok () →
    evaluated f (for_each run_user us w).2.
Proof.
  revert w. induction us as [|u' us IH]; intros w u fields f env probes Hu Hls Hin Hok.
  { by apply elem_of_nil in Hu. }
  simpl in *. unfold bind in *.
  pose proof (keeps_run_user live_status u' live_status_ignores_lines
                live_status_ignores_requests live_status_ignores_history
                (λ _ _, eq_refl) w) as Hkeep.
  destruct (run_user u' w) as [[[]|e] w1] eqn:E1; [|done]. simpl in Hkeep.
  apply elem_of_cons in Hu as [<-|Hu].
  - pose proof (run_user_evaluates u fields w f env probes Hls Hin) as Hhere.
    rewrite E1 in Hhere. simpl in Hhere.
    assert (Hg : steps stdout_grows (for_each run_user us)).
    { apply steps_for_each; [apply stdout_grows_refl | apply stdout_grows_trans |].
      intros x _. apply run_user_grows. }
    apply (Hg w1). by apply Hhere.
  - apply (IH w1 u fields f env probes); [done | by rewrite Hkeep | done | done].
Qed.

(** X17.  A pass that does not end on a "Global Loop Error" line has
    evaluated every field that holds an ["env"], for every user: each
    of them has its "Processing env data" line. *)
Theorem quiet_pass_evaluates_every_field (w : world) (u f : string)
    (fields : list (string * field_data)) (env : gmap string jvalue)
    (probes : list (string * probe_data)) :
  (∀ e, last (stdout (fleet_pass w).2) ≠ Some (GlobalLoopError e)) →
  u ∈ users w → live_status w !! u = Some fields →
  (f, FieldDict (Some env) probes) ∈ fields →
  evaluated f (fleet_pass w).2.
Proof.
  intros Hquiet Hu Hls Hin. revert Hquiet.
  unfold fleet_pass, try_except.
  set (w0 := add_line (FoundUsers (length (users w))) (add_line FetchingUsers w)).
  assert (Hbody : bind (print FetchingUsers) (λ _,
                    bind db_get_users (λ users,
                      bind (print (FoundUsers (length users))) (λ _,
                        for_each run_user users))) w
                  = for_each run_user (users w) w0) by done.
  rewrite Hbody.
  pose proof (run_users_evaluate (users w) w0 u fields f env probes Hu Hls Hin) as Hev.
  destruct (for_each run_user (users w) w0) as [[[]|e] w1].
  - intros _. by apply Hev.
  - intros Hquiet. exfalso. apply (Hquiet e). simpl. apply last_snoc.
Qed.

End quiet_pass.

Lemma quiet_pass_evaluates_every_field_witness :
  evaluated "f1" (fleet_pass (H:=Demo.externals) Fixtures.store).2.
Proof.
  assert (E : stdout (fleet_pass (H:=Demo.externals) Fixtures.store).2
              = [FetchingUsers; FoundUsers 2; CheckingUser "u"; CheckingField "f1";
                 ProcessingEnv "f1"; SkippingArchive "f1" 1000; NoHistoricalLogs "f1";
                 CheckingField "f2"; SkippingNoEnv "f2"; CheckingUser "v";
                 NoLiveStatus "v"]) by (vm_compute; reflexivity).
  apply (quiet_pass_evaluates_every_field (H:=Demo.externals) Fixtures.store "u" "f1"
           [("f1", FieldDict (Some Demo.sample) []); ("f2", FieldDict None [])]
           Demo.sample []).
  - intros e. rewrite E. simpl. discriminate.
  - unfold Fixtures.store. simpl. apply list_elem_of_here.
  - vm_compute. reflexivity.
  - apply list_elem_of_here.
Defined.

(** ** The maintenance script *)

Lemma listed_visits w u f : listed w u f ↔ (u, f) ∈ visits w.
Proof.
  unfold listed, visits. split.
  - intros [Hu Hf]. apply list_elem_of_In, in_flat_map.
    exists u. split; [by apply list_elem_of_In|].
    apply list_elem_of_In, list_elem_of_fmap. by exists f.
  - intros Hin. apply list_elem_of_In, in_flat_map in Hin as (u' & Hu & Hf).
    apply list_elem_of_In in Hu.
    apply list_elem_of_In, list_elem_of_fmap in Hf as (f' & [= -> ->] & Hf). done.
Qed.

Lemma same_but_history_refl w : same_but_history w w.
Proof. by repeat split. Qed.

Lemma clean_field_same u s f : same_but_history s.1 (clean_field u s f).1.
Proof.
  destruct s as [w out]. unfold clean_field.
  destruct (size (history_of w u f) =? 0)%nat; simpl; by repeat split.
Qed.

Lemma clean_field_history u s f u' f' :
  history_of (clean_field u s f).1 u' f' =
  if decide ((u', f') = (u, f)) then ∅ else history_of s.1 u' f'.
Proof.
  destruct s as [w out]. unfold clean_field.
  destruct (size (history_of w u f) =? 0)%nat eqn:E; simpl.
  - apply Nat.eqb_eq, map_size_empty_iff in E.
    by destruct (decide ((u', f') = (u, f))) as [[= -> ->]|].
  - unfold history_of at 1. simpl.
    destruct (decide ((u', f') = (u, f))) as [->|Hne].
    + by rewrite lookup_delete_eq.
    + by rewrite lookup_delete_ne.
Qed.

Lemma clean_field_lines u s f u' f' :
  DeletingHistory u' f' ∈ (clean_field u s f).2 ↔
  DeletingHistory u' f' ∈ s.2 ∨ ((u', f') = (u, f) ∧ history_of s.1 u f ≠ ∅).
Proof.
  destruct s as [w out]. unfold clean_field.
  destruct (size (history_of w u f) =? 0)%nat eqn:E; simpl.
  - apply Nat.eqb_eq, map_size_empty_iff in E. split; [by left|].
    intros [Hin|[_ Hne]]; done.
  - apply Nat.eqb_neq in E. rewrite map_size_empty_iff in E.
    rewrite elem_of_app, elem_of_cons, list_elem_of_singleton. split.
    + intros [Hin|[[= -> ->]|Hd]]; [by left | by right | done].
    + intros [Hin|[[= -> ->] _]]; [by left | right; by left].
Qed.

(** The script walks the pairs of [visits]. *)
Lemma clean_users_flat w us s :
  live_status s.1 = live_status w →
  foldl clean_user s us
  = foldl (λ s p, clean_field p.1 s p.2) s
      (flat_map (λ u, (λ f, (u, f)) <$> (default [] (live_status w !! u)).*1) us).
Proof.
  revert s. induction us as [|u us IH]; intros s Hls; [done|].
  cbn [foldl flat_map]. rewrite foldl_app.
  assert (Hu : ∀ fs s0, foldl (clean_field u) s0 fs
                        = foldl (λ s p, clean_field p.1 s p.2) s0 ((λ f, (u, f)) <$> fs)).
  { induction fs as [|f fs IHf]; intros s0; [done|]. simpl. apply IHf. }
  assert (Hk : ∀ fs s0, live_status (foldl (clean_field u) s0 fs).1 = live_status s0.1).
  { induction fs as [|f fs IHf]; intros s0; [done|]. simpl. rewrite IHf.
    apply (clean_field_same u s0 f). }
  unfold clean_user at 2. rewrite Hls, <- Hu. apply IH.
  by rewrite Hk.
Qed.

Lemma clean_history_flat w :
  clean_history w = foldl (λ s p, clean_field p.1 s p.2) (w, [CleaningUp]) (visits w).
Proof. unfold clean_history, visits. by apply clean_users_flat. Qed.

Lemma clean_pairs_spec (ps : list (string * string)) s u f :
  let res := foldl (λ s p, clean_field p.1 s p.2) s ps in
  same_but_history s.1 res.1
  ∧ history_of res.1 u f = (if decide ((u, f) ∈ ps) then ∅ else history_of s.1 u f)
  ∧ (DeletingHistory u f ∈ res.2 ↔
     DeletingHistory u f ∈ s.2 ∨ ((u, f) ∈ ps ∧ history_of s.1 u f ≠ ∅)).
Proof.
  revert s. induction ps as [|[u0 f0] ps IH]; intros s; cbn [foldl].
  - split; [apply same_but_history_refl|]. split; [done|].
    split; [by left|]. intros [Hin|[Hin _]]; [done | by apply elem_of_nil in Hin].
  - destruct (IH (clean_field u0 s f0)) as (Hsame & Hhist & Hlines).
    pose proof (clean_field_same u0 s f0) as Hsame0.
    pose proof (clean_field_history u0 s f0 u f) as Hhist0.
    pose proof (clean_field_lines u0 s f0 u f) as Hlines0.
    cbn [fst snd] in *. split; [|split].
    + destruct Hsame as (?&?&?&?&?&?&?), Hsame0 as (?&?&?&?&?&?&?).
      repeat split; congruence.
    + rewrite Hhist, Hhist0.
      destruct (decide ((u, f) ∈ (u0, f0) :: ps)) as [Hin|Hnin].
      * destruct (decide ((u, f) ∈ ps)) as [|Hnps]; [done|].
        apply elem_of_cons in Hin as [Heq|Hin]; [|done].
        by rewrite decide_True.
      * rewrite decide_False by (intros Hin; apply Hnin; by apply list_elem_of_further).
        rewrite decide_False; [done|].
        intros Heq. apply Hnin. rewrite Heq. apply list_elem_of_here.
    + rewrite Hlines, Hlines0, Hhist0, elem_of_cons.
      destruct (decide ((u, f) = (u0, f0))) as [Heq|Hne].
      * injection Heq as -> ->. split.
        -- intros [[Hin|[_ Hn]]|[_ Hn]]; [by left | right; split; [by left | done] | done].
        -- intros [Hin|[_ Hn]]; [left; by left | left; by right].
      * split.
        -- intros [[Hin|[Heq _]]|[Hin Hn]]; [by left | done | right; split; [by right | done]].
        -- intros [Hin|[[Heq|Hin] Hn]]; [left; by left | done | by right].
Qed.

Lemma clean_history_listed_empty (w : world) :
  same_but_history w (clean_history w).1
  ∧ ∀ u f, listed w u f → history_of (clean_history w).1 u f = ∅.
Proof.
  rewrite clean_history_flat. split.
  - apply (clean_pairs_spec (visits w) (w, [CleaningUp]) "" "").
  - intros u f Hin. apply listed_visits in Hin.
    destruct (clean_pairs_spec (visits w) (w, [CleaningUp]) u f) as (_ & Hhist & _).
    cbn [fst] in Hhist. by rewrite Hhist, decide_True.
Qed.

(** X18.  [clean_history] empties the archive of every field that is a
    key of the live status of a user of the database, leaves the
    archive of every other field as it was, prints a "Deleting" line
    exactly for the visited fields whose archive held something, and
    changes nothing else in the database. *)
Theorem cleanup_empties_listed_archives (w : world) (u f : string) :
  (listed w u f → history_of (clean_history w).1 u f = ∅)
  ∧ (¬ listed w u f → history_of (clean_history w).1 u f = history_of w u f)
  ∧ (DeletingHistory u f ∈ (clean_history w).2 ↔ listed w u f ∧ history_of w u f ≠ ∅)
  ∧ same_but_history w (clean_history w).1.
Proof.
  rewrite clean_history_flat, listed_visits.
  destruct (clean_pairs_spec (visits w) (w, [CleaningUp]) u f) as (Hsame & Hhist & Hlines).
  cbn [fst snd] in *. split; [|split; [|split]].
  - intros Hin. by rewrite Hhist, decide_True.
  - intros Hnin. by rewrite Hhist, decide_False.
  - rewrite Hlines. split; [|by right].
    intros [Hin|?]; [|done]. by apply list_elem_of_singleton in Hin.
  - done.
Qed.

Lemma clean_pairs_noop (ps : list (string * string)) s :
  (∀ u f, (u, f) ∈ ps → history_of s.1 u f = ∅) →
  foldl (λ s p, clean_field p.1 s p.2) s ps = s.
Proof.
  induction ps as [|[u f] ps IH]; intros Hempty; [done|].
  cbn [foldl fst snd].
  assert (E : clean_field u s f = s).
  { destruct s as [w out]. unfold clean_field.
    pose proof (Hempty u f (list_elem_of_here _ _)) as He. simpl in He.
    by rewrite He, map_size_empty. }
  rewrite E. apply IH. intros u' f' Hin. apply Hempty. by apply list_elem_of_further.
Qed.

(** X19.  Running [clean_history] a second time deletes nothing: it
    leaves the world of the first run and prints only its first line. *)
Theorem cleanup_is_idempotent (w : world) :
  clean_history (clean_history w).1 = ((clean_history w).1, [CleaningUp]).
Proof.
  destruct (clean_history_listed_empty w) as [Hsame Hempty].
  assert (Hv : visits (clean_history w).1 = visits w).
  { unfold visits. destruct Hsame as (_ & Hu & Hl & _). by rewrite Hu, Hl. }
  rewrite (clean_history_flat (clean_history w).1), Hv.
  apply clean_pairs_noop. cbn [fst]. intros u f Hin. apply Hempty.
  by apply listed_visits.
Qed.

Section after_cleanup.
Context `{Externals}.

(** X20.  After [clean_history], the next evaluation of a visited
    field with a well-formed sample archives that sample as the first
    entry of the field's archive, however recent the deleted entries
    were. *)
Theorem cleanup_resets_throttle (u f : string) (env : gmap string jvalue) (t h : Q)
    (w : world) :
  listed w u f →
  env !! "temp" = Some (JNum t) → env !! "hum" = Some (JNum h) →
  let entry := {| temperature := t; humidity := h; timestamp := clock w |} in
  let after := (process_field u f env (clean_history w).1).2 in
  history_of after u f = {[ clock w := entry ]}
  ∧ archive_writes after = archive_writes w ++ [SetHistory u f (clock w) entry].
Proof.
  intros Hl Ht Hh entry after. subst after.
  destruct (clean_history_listed_empty w) as [(_ & _ & _ & Hc & Hw & _) Hempty].
  set (w' := (clean_history w).1) in *.
  assert (E : last_key (history_of w' u f) = None)
    by (rewrite (Hempty u f Hl); apply last_key_empty).
  rewrite (process_field_after_archive u f env t h w' _ Ht Hh
             (archive_live_first u f _ _ w' E)).
  rewrite evaluate_window_keeps_archive_writes, archive_writes_archived.
  unfold history_of at 1. rewrite evaluate_window_keeps_history.
  fold (history_of (archived u f (clock w')
                      {| temperature := t; humidity := h; timestamp := clock w' |} w') u f).
  rewrite history_of_archived, (Hempty u f Hl), insert_empty, Hc.
  unfold archive_writes. by rewrite Hw.
Qed.

End after_cleanup.

Lemma store_lists_f1 : listed Fixtures.store "u" "f1".
Proof.
  split; [apply list_elem_of_here|].
  assert (E : (default [] (live_status Fixtures.store !! "u")).*1 = ["f1"; "f2"])
    by (vm_compute; reflexivity).
  rewrite E. apply list_elem_of_here.
Qed.

Lemma cleanup_resets_throttle_witness :
  history_of (process_field (H:=Demo.externals) "u" "f1" Demo.sample
                (clean_history Fixtures.store).1).2 "u" "f1"
  = {[ 2000%Z := Demo.entry25 2000 ]}.
Proof.
  apply (cleanup_resets_throttle (H:=Demo.externals) "u" "f1" Demo.sample 25 50
           Fixtures.store store_lists_f1);
    vm_compute; reflexivity.
Defined.

(** The script on [Fixtures.store]: the archive of the visited field
    goes, the one of a field that is not visited and the one of a user
    without live status stay. *)
Example clean_history_run :
  (clean_history Fixtures.store).2 = [CleaningUp; DeletingHistory "u" "f1"; Deleted]
  ∧ history (clean_history Fixtures.store).1
    = {[ ("u", "gone") := {[ 5%Z := Demo.entry25 5 ]};
         ("v", "f1") := {[ 7%Z := Demo.entry25 7 ]} ]}.
Proof. vm_compute. done. Qed.

(** ** The further statements on concrete data *)

Lemma skipped_evaluation_is_quiet_witness :
  requests (process_field (H:=Demo.externals) "u" "f2" Demo.sample Demo.quiet).2
    = requests Demo.quiet
  ∧ prediction_writes (process_field (H:=Demo.externals) "u" "f2" Demo.sample Demo.quiet).2
    = prediction_writes Demo.quiet.
Proof.
  apply (skipped_evaluation_is_quiet (H:=Demo.externals) "u" "f2" Demo.sample Demo.quiet).
  vm_compute. reflexivity.
Defined.

Lemma scoring_needs_47_usable_entries_witness :
  (process_field (H:=Demo.externals) "u" "f2" Demo.sample Demo.quiet).1 = Ok None
  ↔ ¬ full_usable_window Demo.quiet "u" "f2".
Proof.
  apply (scoring_needs_47_usable_entries (H:=Demo.externals) "u" "f2" Demo.sample 25 50
           Demo.quiet).
  - vm_compute. reflexivity.
  - vm_compute. reflexivity.
  - apply quiet_logs_numeric.
Defined.

Lemma prediction_record_is_consistent_witness :
  ∃ p ratio,
    last (writes (process_field (H:=Demo.externals) "u" "f2" Demo.sample Demo.full).2)
      = Some (SetPrediction "u" "f2" p)
    ∧ pred_risk p = NORMAL ∧ NORMAL = classify (H:=Demo.externals) (anomaly_score p)
    ∧ NORMAL ≠ WARNING
    ∧ 0 <= anomaly_score p
    ∧ reason p = reason_of NORMAL
    ∧ float_div (anomaly_score p) (THRESHOLD (Externals:=Demo.externals)) = Ok ratio
    ∧ confidence p = py_round2 ratio.
Proof.
  apply (prediction_record_is_consistent (H:=Demo.externals) "u" "f2" Demo.sample Demo.full
           (process_field (H:=Demo.externals) "u" "f2" Demo.sample Demo.full).2 NORMAL).
  vm_compute. reflexivity.
Defined.

Lemma classify_is_monotone_witness :
  risk_le (classify (H:=Demo.externals) 0.04) (classify (H:=Demo.externals) 0.2).
Proof.
  apply (classify_is_monotone (H:=Demo.externals) 0.04 0.2). lra.
Defined.
